(** * FQuake3 launcher: [src/C/FQuake3/main.c]

    The launcher parses two directory options with GLib's option parser,
    creates a Mono hosting domain, loads five assemblies, runs
    [Launcher.exe] and releases what it acquired.  Everything it does is a
    call into GLib or into the hosting library [m.h]; the development
    therefore records those calls in a trace, keeps the two static path
    variables in a store that the parser writes through the [arg_data]
    pointers of the option table, and runs [main] in a state monad over
    that world. *)

From Stdlib Require Import Bool Arith ZArith List String Ascii Lia.
Import ListNotations.

Local Open Scope string_scope.
Local Open Scope list_scope.

(** ** C strings *)

(** The line feed of the format string ["Invalid option: %s\n"]. *)
Definition LF : string := String (ascii_of_nat 10) EmptyString.

(** [strip_prefix p s] is what follows [p] in [s] when [s] starts with [p]:
    the pointer [s + strlen (p)] after a successful
    [strncmp (s, p, strlen (p)) == 0]. *)
Fixpoint strip_prefix (p s : string) : option string :=
  match p with
  | EmptyString => Some s
  | String c p' =>
      match s with
      | EmptyString => None
      | String d s' => if Ascii.eqb c d then strip_prefix p' s' else None
      end
  end.

(** [ascii_only s]: every byte of [s] is below 128. *)
Fixpoint ascii_only (s : string) : bool :=
  match s with
  | EmptyString => true
  | String (Ascii _ _ _ _ _ _ _ b7) s' => negb b7 && ascii_only s'
  end.

(** ** The static variables of main.c *)

(** Addresses of the two file-scope variables, as stored in [arg_data]. *)
Inductive Global : Type :=
| addr_mono_lib
| addr_mono_etc.

Record Globals : Type := mkGlobals {
  mono_lib : string;
  mono_etc : string
}.

(** [static gchar* mono_lib = "Mono\\lib"; static gchar* mono_etc = "Mono\\etc";] *)
Definition initial_globals : Globals :=
  {| mono_lib := "Mono\lib"; mono_etc := "Mono\etc" |}.

Definition deref (p : Global) (g : Globals) : string :=
  match p with
  | addr_mono_lib => mono_lib g
  | addr_mono_etc => mono_etc g
  end.

Definition assign (p : Global) (v : string) (g : Globals) : Globals :=
  match p with
  | addr_mono_lib => {| mono_lib := v; mono_etc := mono_etc g |}
  | addr_mono_etc => {| mono_lib := mono_lib g; mono_etc := v |}
  end.

(** ** GLib's command-line option parser

    [g_option_context_parse] is GLib's, not the launcher's.  The model below
    follows goption.c for the contexts the launcher can build: a main group
    of long options that take a string ([G_OPTION_ARG_STRING]), no short
    names, no flags, no extra groups, help enabled (the default of
    [g_option_context_new]), unknown options not ignored.  What depends
    on the process environment, the conversion of an option value from the
    locale's encoding to UTF-8 and the message catalogue, is a parameter
    of the parser ([Locale]). *)
Module GLib.

Inductive GOptionArg : Type :=
| G_OPTION_ARG_STRING.

Record GOptionEntry : Type := mkEntry {
  long_name : string;
  short_name : option ascii;
  flags : Z;
  arg : GOptionArg;
  arg_data : Global;
  description : string;
  arg_description : option string
}.

(** The error domains the parser reports in. *)
Inductive GErrorDomain : Type :=
| G_OPTION_ERROR
| G_CONVERT_ERROR.

Record GError : Type := mkError {
  domain : GErrorDomain;
  code : Z;
  message : string
}.

(** [enum GOptionError] *)
Definition G_OPTION_ERROR_UNKNOWN_OPTION : Z := 0.
Definition G_OPTION_ERROR_BAD_VALUE : Z := 1.
Definition G_OPTION_ERROR_FAILED : Z := 2.

(** [G_CONVERT_ERROR_ILLEGAL_SEQUENCE] of [enum GConvertError] *)
Definition G_CONVERT_ERROR_ILLEGAL_SEQUENCE : Z := 1.

(** What the parser takes from the process environment.
    [g_locale_to_utf8] converts a value from the encoding of the locale
    and returns the converted string or the conversion's error;
    [unknown_option_text a] and [missing_argument_text name] are the
    catalogue's renderings of "Unknown option %s" and "Missing argument
    for %s".  The encoding extends ASCII, and a conversion error lies in
    the domain [G_CONVERT_ERROR]. *)
Record Locale : Type := mkLocale {
  g_locale_to_utf8 : string -> GError + string;
  unknown_option_text : string -> string;
  missing_argument_text : string -> string;
  ascii_unchanged :
    forall s, ascii_only s = true -> g_locale_to_utf8 s = inr s;
  convert_error_domain :
    forall s error, g_locale_to_utf8 s = inl error ->
                    domain error = G_CONVERT_ERROR
}.

Record GOptionContext : Type := mkContext {
  parameter_string : string;
  help_enabled : bool;
  main_entries : list GOptionEntry;
  freed : bool
}.

(** The state of the scanning loop of [g_option_context_parse]:
    [i] is the index into argv, [pending_nulls] the indices that are
    set to NULL when parsing succeeds, [separator_pos] the index of the
    [--] that ended option parsing (0 when there is none to remove). *)
Record LoopState : Type := mkLoop {
  i : nat;
  stop_parsing : bool;
  separator_pos : nat;
  pending_nulls : list nat;
  store : Globals
}.

Inductive LoopResult : Type :=
| Finished (st : LoopState)
| Fail (error : GError)
| PrintHelp (main_help : bool).

Definition next (st : LoopState) : LoopState :=
  {| i := S (i st); stop_parsing := stop_parsing st;
     separator_pos := separator_pos st;
     pending_nulls := pending_nulls st; store := store st |}.

Definition add_pending_null (k : nat) (st : LoopState) : LoopState :=
  {| i := i st; stop_parsing := stop_parsing st;
     separator_pos := separator_pos st;
     pending_nulls := k :: pending_nulls st; store := store st |}.

Definition starts_with_dash (a : string) : bool :=
  match a with
  | String c _ => Ascii.eqb c "-"
  | EmptyString => false
  end.

Section Parser.

Variable locale : Locale.

(** [parse_arg] for [G_OPTION_ARG_STRING]: the value is converted with
    [g_locale_to_utf8]; when that fails its error is the parser's,
    otherwise the converted string is stored through [arg_data]. *)
Definition parse_arg (entry : GOptionEntry) (value : string)
    (st : LoopState) : GError + LoopState :=
  match g_locale_to_utf8 locale value with
  | inl error => inl error
  | inr data =>
      inr {| i := i st; stop_parsing := stop_parsing st;
             separator_pos := separator_pos st;
             pending_nulls := pending_nulls st;
             store := assign (arg_data entry) data (store st) |}
  end.

(** [parse_long_option]: every entry of the group is tried in turn
    against [arg], the text after the two dashes.  [rest] holds
    argv[idx0+1..]; [taken] counts the following arguments already
    consumed as values, so that the current index is [idx0 + taken]. *)
Fixpoint parse_long_option (entries : list GOptionEntry) (arg : string)
    (rest : list string) (idx0 taken : nat) (parsed : bool)
    (st : LoopState) : GError + (nat * bool * LoopState) :=
  match entries with
  | [] => inr (taken, parsed, st)
  | entry :: entries' =>
      match strip_prefix (long_name entry) arg with
      | Some EmptyString =>
          match nth_error rest taken with
          | Some value =>
              let st1 := add_pending_null (idx0 + taken) st in
              let st2 := add_pending_null (idx0 + taken + 1) st1 in
              match parse_arg entry value st2 with
              | inl error => inl error
              | inr st3 =>
                  parse_long_option entries' arg rest idx0 (S taken) true
                    st3
              end
          | None =>
              inl {| domain := G_OPTION_ERROR;
                     code := G_OPTION_ERROR_BAD_VALUE;
                     message := missing_argument_text locale
                                  ("--" ++ long_name entry) |}
          end
      | Some (String c value) =>
          if Ascii.eqb c "="
          then
            let st1 := add_pending_null (idx0 + taken) st in
            match parse_arg entry value st1 with
            | inl error => inl error
            | inr st2 =>
                parse_long_option entries' arg rest idx0 taken true st2
            end
          else parse_long_option entries' arg rest idx0 taken parsed st
      | None => parse_long_option entries' arg rest idx0 taken parsed st
      end
  end.

Definition unknown_option (a : string) : GError :=
  {| domain := G_OPTION_ERROR;
     code := G_OPTION_ERROR_UNKNOWN_OPTION;
     message := unknown_option_text locale a |}.

(** The scanning loop [for (i = 1; i < *argc; i++)].  [args] is
    argv[i..]; [skip] counts the arguments at the head of [args] that
    were consumed as option values by the previous iteration, where
    [parse_long_option] advanced its index. *)
Fixpoint parse_loop (context : GOptionContext) (args : list string)
    (skip : nat) (st : LoopState) : LoopResult :=
  match args with
  | [] => Finished st
  | a :: rest =>
      match skip with
      | S skip' => parse_loop context rest skip' (next st)
      | O =>
          match a with
          | String c0 (String c1 arg) =>
              if Ascii.eqb c0 "-" && negb (stop_parsing st)
              then
                if Ascii.eqb c1 "-"
                then
                  match arg with
                  | EmptyString =>
                      (* [--] terminates the list of options *)
                      parse_loop context rest 0
                        {| i := S (i st); stop_parsing := true;
                           separator_pos := i st;
                           pending_nulls := pending_nulls st;
                           store := store st |}
                  | _ =>
                      if help_enabled context && String.eqb arg "help"
                      then PrintHelp true
                      else if help_enabled context
                              && String.eqb arg "help-all"
                      then PrintHelp false
                      else
                        match parse_long_option (main_entries context)
                                arg rest (i st) 0 false st with
                        | inl error => Fail error
                        | inr (taken, true, st') =>
                            parse_loop context rest taken (next st')
                        | inr (_, false, _) => Fail (unknown_option a)
                        end
                  end
                else
                  (* a cluster of short options; no entry has a short
                     name, so its first letter is either a help request
                     or unknown *)
                  if help_enabled context
                     && (Ascii.eqb c1 "?" || Ascii.eqb c1 "h")
                  then PrintHelp true
                  else Fail (unknown_option a)
              else
                parse_loop context rest 0
                  {| i := S (i st); stop_parsing := stop_parsing st;
                     separator_pos :=
                       if Ascii.eqb c0 "-" then 0 else separator_pos st;
                     pending_nulls := pending_nulls st;
                     store := store st |}
          | _ =>
              (* the empty string, or a single character *)
              parse_loop context rest 0
                {| i := S (i st); stop_parsing := stop_parsing st;
                   separator_pos :=
                     if starts_with_dash a then 0 else separator_pos st;
                   pending_nulls := pending_nulls st;
                   store := store st |}
          end
      end
  end.

(** The compaction at the end of a successful parse: the entries of
    argv that were set to NULL are squeezed out, [argv[0]] included in
    the scan but never nulled. *)
Fixpoint compact (argv : list string) (k : nat) (nulls : list nat)
    : list string :=
  match argv with
  | [] => []
  | a :: argv' =>
      if existsb (Nat.eqb k) nulls
      then compact argv' (S k) nulls
      else a :: compact argv' (S k) nulls
  end.

Inductive ParseOutcome : Type :=
| Parsed (argv : list string) (g : Globals)
| Failed (error : GError)
| HelpExit (main_help : bool).

(** [g_option_context_parse (context, &argc, &argv, &error)] on the
    store [g]: [Parsed] is a TRUE return with the rewritten argv and
    store, [Failed] a FALSE return with the error set (argv and the
    variables behind [arg_data] are left as they were), [HelpExit] the
    help screen followed by [exit (0)]. *)
Definition g_option_context_parse (context : GOptionContext)
    (argv : list string) (g : Globals) : ParseOutcome :=
  match parse_loop context (tl argv) 0
          {| i := 1; stop_parsing := false; separator_pos := 0;
             pending_nulls := []; store := g |} with
  | Finished st =>
      let nulls :=
        if Nat.ltb 0 (separator_pos st)
        then separator_pos st :: pending_nulls st
        else pending_nulls st in
      Parsed (compact argv 0 nulls) (store st)
  | Fail error => Failed error
  | PrintHelp main_help => HelpExit main_help
  end.

End Parser.

(** The conversion's error on a byte sequence that is not valid in the
    locale's encoding. *)
Definition illegal_sequence : GError :=
  {| domain := G_CONVERT_ERROR;
     code := G_CONVERT_ERROR_ILLEGAL_SEQUENCE;
     message := "Invalid byte sequence in conversion input" |}.

(** The conversion of the "C" locale, whose encoding is ASCII. *)
Definition ascii_to_utf8 (s : string) : GError + string :=
  if ascii_only s then inr s else inl illegal_sequence.

(** The conversion of a locale whose encoding is ISO 8859-1: a byte
    from 128 on becomes the two bytes of its code point. *)
Fixpoint latin1_to_utf8 (s : string) : string :=
  match s with
  | EmptyString => EmptyString
  | String (Ascii b0 b1 b2 b3 b4 b5 b6 false) s' =>
      String (Ascii b0 b1 b2 b3 b4 b5 b6 false) (latin1_to_utf8 s')
  | String (Ascii b0 b1 b2 b3 b4 b5 b6 true) s' =>
      String (Ascii b6 true false false false false true true)
        (String (Ascii b0 b1 b2 b3 b4 b5 false true) (latin1_to_utf8 s'))
  end.

End GLib.

(** The "C" locale: the encoding is ASCII, the messages are the
    untranslated ones. *)
Definition c_locale : GLib.Locale.
Proof.
  refine {| GLib.g_locale_to_utf8 := GLib.ascii_to_utf8;
            GLib.unknown_option_text :=
              fun a => ("Unknown option " ++ a)%string;
            GLib.missing_argument_text :=
              fun name => ("Missing argument for " ++ name)%string |}.
  - intros s H. unfold GLib.ascii_to_utf8. now rewrite H.
  - intros s error. unfold GLib.ascii_to_utf8.
    destruct (ascii_only s); intros H; inversion H. reflexivity.
Defined.

(** A locale whose encoding is ISO 8859-1, messages untranslated. *)
Definition latin1_locale : GLib.Locale.
Proof.
  refine {| GLib.g_locale_to_utf8 := fun s => inr (GLib.latin1_to_utf8 s);
            GLib.unknown_option_text :=
              fun a => ("Unknown option " ++ a)%string;
            GLib.missing_argument_text :=
              fun name => ("Missing argument for " ++ name)%string |}.
  - intros s H. f_equal. induction s as [|c s IH]; [reflexivity|].
    destruct c as [b0 b1 b2 b3 b4 b5 b6 b7]. simpl in H.
    apply andb_true_iff in H. destruct H as [Hb Hs].
    destruct b7; [discriminate Hb|]. simpl. now rewrite (IH Hs).
  - intros s error H. discriminate H.
Defined.

(** ** The world the launcher runs in *)

(** An [MDomain*] as returned by the hosting library; 0 is NULL. *)
Definition MDomain : Type := Z.

(** A [GOptionContext*]: the index of the context in GLib's heap. *)
Definition GOptionContextPtr : Type := nat.

(** The calls made into GLib and into the hosting library, with their
    arguments, as a recording test double would see them. *)
Inductive Call : Type :=
| G_option_context_new (parameter_string : string)
| G_option_context_add_main_entries (context : GOptionContextPtr)
    (entries : list GLib.GOptionEntry)
| G_option_context_parse (context : GOptionContextPtr) (argc : Z)
    (argv : list string)
| G_print (text : string)
| M_domain_new (lib_path etc_path name : string)
| M_load_assembly (name : string)
| M_domain_exec (domain : MDomain) (name : string) (argc : Z)
    (argv : list string)
| M_domain_free (domain : MDomain)
| G_option_context_free (context : GOptionContextPtr).

(** What reaches standard output: text written by [g_print], or the help
    screen GLib renders for a context. *)
Inductive Output : Type :=
| Text (s : string)
| HelpScreen (context : GLib.GOptionContext) (main_help : bool).

Record World : Type := mkWorld {
  globals : Globals;
  contexts : list GLib.GOptionContext;
  stdout : list Output;
  calls : list Call
}.

(** How a computation ends: it returns, a callee ends the process with
    [exit (status)], or it steps outside defined behaviour (a dangling
    context pointer). *)
Inductive Result (A : Type) : Type :=
| Returned (a : A) (w : World)
| Exited (status : Z) (w : World)
| Undefined.

Arguments Returned {A} a w.
Arguments Exited {A} status w.
Arguments Undefined {A}.

Definition M (A : Type) : Type := World -> Result A.

Definition ret {A : Type} (a : A) : M A := fun w => Returned a w.

Definition bind {A B : Type} (m : M A) (k : A -> M B) : M B :=
  fun w =>
    match m w with
    | Returned a w' => k a w'
    | Exited status w' => Exited status w'
    | Undefined => Undefined
    end.

Notation "x <- m ;; k" := (bind m (fun x => k))
  (at level 61, m at next level, right associativity).
Notation "m ;; k" := (bind m (fun _ => k))
  (at level 61, right associativity).

Definition record (c : Call) : M unit :=
  fun w =>
    Returned tt {| globals := globals w; contexts := contexts w;
                   stdout := stdout w; calls := calls w ++ [c] |}.

Definition write_stdout (o : Output) : M unit :=
  fun w =>
    Returned tt {| globals := globals w; contexts := contexts w;
                   stdout := stdout w ++ [o]; calls := calls w |}.

Definition read_global (p : Global) : M string :=
  fun w => Returned (deref p (globals w)) w.

Definition set_globals (g : Globals) : M unit :=
  fun w =>
    Returned tt {| globals := g; contexts := contexts w;
                   stdout := stdout w; calls := calls w |}.

Definition get_context (p : GOptionContextPtr) : M GLib.GOptionContext :=
  fun w =>
    match nth_error (contexts w) p with
    | Some c => if GLib.freed c then Undefined else Returned c w
    | None => Undefined
    end.

Fixpoint update {A : Type} (l : list A) (k : nat) (x : A) : list A :=
  match l, k with
  | [], _ => []
  | _ :: l', O => x :: l'
  | y :: l', S k' => y :: update l' k' x
  end.

Definition put_context (p : GOptionContextPtr) (c : GLib.GOptionContext)
    : M unit :=
  fun w =>
    Returned tt {| globals := globals w;
                   contexts := update (contexts w) p c;
                   stdout := stdout w; calls := calls w |}.

Definition alloc_context (c : GLib.GOptionContext) : M GOptionContextPtr :=
  fun w =>
    Returned (List.length (contexts w))
      {| globals := globals w; contexts := contexts w ++ [c];
         stdout := stdout w; calls := calls w |}.

Definition exit {A : Type} (status : Z) : M A :=
  fun w => Exited status w.

Definition argc_of (argv : list string) : Z := Z.of_nat (List.length argv).

(** *** GLib, as called by the launcher *)

Definition g_option_context_new (parameter_string : string)
    : M GOptionContextPtr :=
  record (G_option_context_new parameter_string) ;;
  alloc_context {| GLib.parameter_string := parameter_string;
                   GLib.help_enabled := true;
                   GLib.main_entries := [];
                   GLib.freed := false |}.

Definition g_option_context_add_main_entries (context : GOptionContextPtr)
    (entries : list GLib.GOptionEntry) : M unit :=
  record (G_option_context_add_main_entries context entries) ;;
  c <- get_context context ;;
  put_context context
    {| GLib.parameter_string := GLib.parameter_string c;
       GLib.help_enabled := GLib.help_enabled c;
       GLib.main_entries := GLib.main_entries c ++ entries;
       GLib.freed := false |}.

Definition g_print (text : string) : M unit :=
  record (G_print text) ;;
  write_stdout (Text text).

Definition g_option_context_free (context : GOptionContextPtr) : M unit :=
  record (G_option_context_free context) ;;
  c <- get_context context ;;
  put_context context
    {| GLib.parameter_string := GLib.parameter_string c;
       GLib.help_enabled := GLib.help_enabled c;
       GLib.main_entries := GLib.main_entries c;
       GLib.freed := true |}.

(** ** The launcher *)

Section Launcher.

(** The locale GLib finds in the process environment. *)
Variable locale : GLib.Locale.

(** The functions of the hosting library are declared in m.h and defined
    elsewhere; [main] only calls them.  Each call is recorded with its
    arguments, and [host] is the pointer [m_domain_new] answers with,
    whatever it is. *)
Variable host : string -> string -> string -> MDomain.

(** The call returns TRUE with the rewritten argv ([inl]) or FALSE with
    the error ([inr]); on the help options it prints and exits. *)
Definition g_option_context_parse (context : GOptionContextPtr)
    (argv : list string) : M (list string + GLib.GError) :=
  record (G_option_context_parse context (argc_of argv) argv) ;;
  c <- get_context context ;;
  fun w =>
    match GLib.g_option_context_parse locale c argv (globals w) with
    | GLib.Parsed argv' g' => (set_globals g' ;; ret (inl argv')) w
    | GLib.Failed error => ret (inr error) w
    | GLib.HelpExit main_help =>
        (write_stdout (HelpScreen c main_help) ;; exit 0%Z) w
    end.

Definition m_domain_new (lib_path etc_path name : string) : M MDomain :=
  record (M_domain_new lib_path etc_path name) ;;
  ret (host lib_path etc_path name).

Definition m_load_assembly (name : string) : M unit :=
  record (M_load_assembly name).

Definition m_domain_exec (domain : MDomain) (name : string) (argc : Z)
    (argv : list string) : M unit :=
  record (M_domain_exec domain name argc argv).

Definition m_domain_free (domain : MDomain) : M unit :=
  record (M_domain_free domain).

(** [static GOptionEntry option_entries[]] *)
Definition option_entries : list GLib.GOptionEntry :=
  [ {| GLib.long_name := "mono-lib"; GLib.short_name := None;
       GLib.flags := 0; GLib.arg := GLib.G_OPTION_ARG_STRING;
       GLib.arg_data := addr_mono_lib;
       GLib.description := "Mono lib directory path";
       GLib.arg_description := None |};
    {| GLib.long_name := "mono-etc"; GLib.short_name := None;
       GLib.flags := 0; GLib.arg := GLib.G_OPTION_ARG_STRING;
       GLib.arg_data := addr_mono_etc;
       GLib.description := "Mono etc directory path";
       GLib.arg_description := None |} ].

(** [int main (int argc, char *argv[])]; argc is the length of [argv]. *)
Definition main (argv : list string) : M Z :=
  option_context <- g_option_context_new "- options for mono" ;;
  g_option_context_add_main_entries option_context option_entries ;;
  parsed <- g_option_context_parse option_context argv ;;
  match parsed with
  | inr error =>
      g_print ("Invalid option: " ++ GLib.message error ++ LF) ;;
      ret 1%Z
  | inl argv =>
      lib <- read_global addr_mono_lib ;;
      etc <- read_global addr_mono_etc ;;
      domain <- m_domain_new lib etc "Launcher.exe" ;;
      (* Load Core *)
      m_load_assembly "FSharp.Core.dll" ;;
      (* Load Utils *)
      m_load_assembly "FQuake3.Utils.dll" ;;
      (* Load Engine *)
      m_load_assembly "Engine.dll" ;;
      (* Load Renderer *)
      m_load_assembly "Engine.Renderer.dll" ;;
      (* Load CGame (temporary) *)
      m_load_assembly "CGame.dll" ;;
      m_domain_exec domain "Launcher.exe" (argc_of argv) argv ;;
      (* Free Domain *)
      m_domain_free domain ;;
      (* Free Option Context *)
      g_option_context_free option_context ;;
      ret 0%Z
  end.

(** The world at process start: the statics hold their initialisers,
    GLib has no context, nothing was printed or called. *)
Definition boot : World :=
  {| globals := initial_globals; contexts := []; stdout := []; calls := [] |}.

Definition run (argv : list string) : Result Z := main argv boot.

End Launcher.

(** ** Observing a run *)

Definition exit_status (r : Result Z) : option Z :=
  match r with
  | Returned status _ => Some status
  | Exited status _ => Some status
  | Undefined => None
  end.

Definition final_world (r : Result Z) : option World :=
  match r with
  | Returned _ w => Some w
  | Exited _ w => Some w
  | Undefined => None
  end.

Definition calls_of (r : Result Z) : list Call :=
  match final_world r with
  | Some w => calls w
  | None => []
  end.

Definition stdout_of (r : Result Z) : list Output :=
  match final_world r with
  | Some w => stdout w
  | None => []
  end.

(** The assembly names of the [m_load_assembly] calls of a trace, in call
    order. *)
Fixpoint loads (cs : list Call) : list string :=
  match cs with
  | [] => []
  | M_load_assembly name :: cs' => name :: loads cs'
  | _ :: cs' => loads cs'
  end.

(** The argument triples of the [m_domain_new] calls of a trace. *)
Fixpoint domain_configs (cs : list Call) : list (string * string * string) :=
  match cs with
  | [] => []
  | M_domain_new lib_path etc_path name :: cs' =>
      (lib_path, etc_path, name) :: domain_configs cs'
  | _ :: cs' => domain_configs cs'
  end.

(** The [m_domain_exec] calls of a trace: domain, name, argc, argv. *)
Fixpoint execs (cs : list Call)
    : list (MDomain * string * Z * list string) :=
  match cs with
  | [] => []
  | M_domain_exec domain name argc argv :: cs' =>
      (domain, name, argc, argv) :: execs cs'
  | _ :: cs' => execs cs'
  end.

(** The domains handed to [m_domain_free]. *)
Fixpoint domain_frees (cs : list Call) : list MDomain :=
  match cs with
  | [] => []
  | M_domain_free domain :: cs' => domain :: domain_frees cs'
  | _ :: cs' => domain_frees cs'
  end.

(** The contexts handed to [g_option_context_free]. *)
Fixpoint context_frees (cs : list Call) : list GOptionContextPtr :=
  match cs with
  | [] => []
  | G_option_context_free context :: cs' => context :: context_frees cs'
  | _ :: cs' => context_frees cs'
  end.

Definition is_release (c : Call) : bool :=
  match c with
  | M_domain_free _ | G_option_context_free _ => true
  | _ => false
  end.

(** [contains needle hay]: [needle] occurs in [hay]. *)
Definition contains (needle hay : string) : Prop :=
  exists before after, hay = (before ++ needle ++ after)%string.

(** The context as it stands when [main] calls the parser: created by
    [g_option_context_new], then given [option_entries]. *)
Definition launcher_context : GLib.GOptionContext :=
  {| GLib.parameter_string := "- options for mono";
     GLib.help_enabled := true;
     GLib.main_entries := option_entries;
     GLib.freed := false |}.

Definition released_context : GLib.GOptionContext :=
  {| GLib.parameter_string := "- options for mono";
     GLib.help_enabled := true;
     GLib.main_entries := option_entries;
     GLib.freed := true |}.

(** What option parsing does with an invocation: the parser applied to
    the launcher's context and the initial values of the statics. *)
Definition parse_outcome (locale : GLib.Locale) (argv : list string)
    : GLib.ParseOutcome :=
  GLib.g_option_context_parse locale launcher_context argv initial_globals.

(** The three calls every run starts with. *)
Definition prologue (argv : list string) : list Call :=
  [ G_option_context_new "- options for mono";
    G_option_context_add_main_entries 0 option_entries;
    G_option_context_parse 0 (argc_of argv) argv ].

(** The five assembly names, in the order of the source. *)
Definition assemblies : list string :=
  [ "FSharp.Core.dll"; "FQuake3.Utils.dll"; "Engine.dll";
    "Engine.Renderer.dll"; "CGame.dll" ].

(** The hosting calls of a run whose parse left [argv] and [g]. *)
Definition hosting (domain : MDomain) (g : Globals) (argv : list string)
    : list Call :=
  M_domain_new (mono_lib g) (mono_etc g) "Launcher.exe"
  :: map M_load_assembly assemblies
  ++ [ M_domain_exec domain "Launcher.exe" (argc_of argv) argv;
       M_domain_free domain ].

(** [supplies name a]: the argument [a] names the long option [name],
    bare or with an attached value. *)
Definition supplies (name a : string) : Prop :=
  a = ("--" ++ name)%string
  \/ exists value, a = ("--" ++ name ++ "=" ++ value)%string.

(** [option_position skip before]: the arguments [before] form complete
    items in front of any [--] terminator, so that the argument after
    them is scanned as an option.  [skip] is 1 when the first of them is
    the value of a bare [--mono-lib] or [--mono-etc] just before. *)
Fixpoint option_position (skip : nat) (before : list string) : bool :=
  match before with
  | [] => Nat.eqb skip 0
  | a :: before' =>
      match skip with
      | S skip' => option_position skip' before'
      | O =>
          if String.eqb a "--" then false
          else if String.eqb a "--mono-lib" || String.eqb a "--mono-etc"
          then option_position 1 before'
          else option_position 0 before'
      end
  end.

(** A host for the examples: every domain lives at the same address. *)
Definition host0 : string -> string -> string -> MDomain :=
  fun _ _ _ => 4096%Z.

(** The invocation of the example in the specification, under the
    program name [prog]. *)
Definition custom_paths (prog : string) : list string :=
  [ prog; "--mono-lib"; "Custom\lib"; "--mono-etc"; "Custom\etc";
    "foo"; "bar" ].

(** The texts handed to [g_print], in call order. *)
Fixpoint prints (cs : list Call) : list string :=
  match cs with
  | [] => []
  | G_print text :: cs' => text :: prints cs'
  | _ :: cs' => prints cs'
  end.

(** The calls that build the option context and run the parser. *)
Definition is_parser_call (c : Call) : bool :=
  match c with
  | G_option_context_new _
  | G_option_context_add_main_entries _ _
  | G_option_context_parse _ _ _ => true
  | _ => false
  end.

(** The calls into the hosting library. *)
Definition is_hosting_call (c : Call) : bool :=
  match c with
  | M_domain_new _ _ _
  | M_load_assembly _
  | M_domain_exec _ _ _ _
  | M_domain_free _ => true
  | _ => false
  end.

(** [subsequence l1 l2]: [l1] is [l2] with some elements left out, the
    others in their order. *)
Inductive subsequence {A : Type} : list A -> list A -> Prop :=
| subsequence_nil : subsequence [] []
| subsequence_keep (x : A) (l1 l2 : list A) :
    subsequence l1 l2 -> subsequence (x :: l1) (x :: l2)
| subsequence_drop (x : A) (l1 l2 : list A) :
    subsequence l1 l2 -> subsequence l1 (x :: l2).

(** An argument that cannot be an option: it does not start with a
    dash. *)
Definition plain (a : string) : Prop := GLib.starts_with_dash a = false.

(** The loop state after [n] arguments were passed over untouched. *)
Definition advance (n : nat) (st : GLib.LoopState) : GLib.LoopState :=
  {| GLib.i := n + GLib.i st;
     GLib.stop_parsing := GLib.stop_parsing st;
     GLib.separator_pos := GLib.separator_pos st;
     GLib.pending_nulls := GLib.pending_nulls st;
     GLib.store := GLib.store st |}.

(** The loop state the parser starts from. *)
Definition loop_start : GLib.LoopState :=
  {| GLib.i := 1; GLib.stop_parsing := false; GLib.separator_pos := 0;
     GLib.pending_nulls := []; GLib.store := initial_globals |}.

(** [unrecognized a]: [a] has the form of an option and is none the
    parser knows: two dashes and a text that names neither entry nor a
    help option, or one dash and a letter other than [?] and [h]. *)
Definition unrecognized (a : string) : Prop :=
  (exists arg, a = ("--" ++ arg)%string
               /\ arg <> ""%string /\ arg <> "help"%string
               /\ arg <> "help-all"%string
               /\ ~ supplies "mono-lib" a /\ ~ supplies "mono-etc" a)
  \/ (exists c s, a = String "-" (String c s)
                  /\ c <> "-"%char /\ c <> "?"%char /\ c <> "h"%char).

(** [asks_help a]: [a] is one of the help options GLib adds to every
    context: [--help], [--help-all], or a short cluster that starts with
    [?] or [h]. *)
Definition asks_help (a : string) : Prop :=
  a = "--help"%string \/ a = "--help-all"%string
  \/ exists s, a = ("-?" ++ s)%string \/ a = ("-h" ++ s)%string.

(** [well_formed locale before]: the arguments [before] are a sequence
    of complete items the parser accepts: arguments without a leading
    dash, [--mono-lib=X] or [--mono-etc=X], and a bare [--mono-lib] or
    [--mono-etc] followed by its value [X], where the locale converts
    [X]. *)
Inductive well_formed (locale : GLib.Locale) : list string -> Prop :=
| well_formed_nil : well_formed locale []
| well_formed_plain (a : string) (l : list string) :
    plain a -> well_formed locale l -> well_formed locale (a :: l)
| well_formed_attached (e : GLib.GOptionEntry) (X data : string)
    (l : list string) :
    In e option_entries ->
    GLib.g_locale_to_utf8 locale X = inr data ->
    well_formed locale l ->
    well_formed locale (("--" ++ GLib.long_name e ++ "=" ++ X)%string :: l)
| well_formed_bare (e : GLib.GOptionEntry) (X data : string)
    (l : list string) :
    In e option_entries ->
    GLib.g_locale_to_utf8 locale X = inr data ->
    well_formed locale l ->
    well_formed locale (("--" ++ GLib.long_name e)%string :: X :: l).

(** [names_option name a] decides [supplies name a]. *)
Definition names_option (name a : string) : bool :=
  match strip_prefix ("--" ++ name) a with
  | Some EmptyString => true
  | Some (String c _) => Ascii.eqb c "="
  | None => false
  end.

(** [read_later name skip after]: some argument of [after] is read by
    the parser as the option [name]: it names the option, no [--] comes
    before it, and it is not the value of a bare [--mono-lib] or
    [--mono-etc] in front of it.  [skip] is 1 when the first argument is
    such a value. *)
Fixpoint read_later (name : string) (skip : nat) (after : list string)
    : bool :=
  match after with
  | [] => false
  | a :: after' =>
      match skip with
      | S skip' => read_later name skip' after'
      | O =>
          if String.eqb a "--" then false
          else if names_option name a then true
          else if String.eqb a "--mono-lib" || String.eqb a "--mono-etc"
          then read_later name 1 after'
          else read_later name 0 after'
      end
  end.


(** Another host for the examples: every domain at another address. *)
Definition host1 : string -> string -> string -> MDomain :=
  fun _ _ _ => 8192%Z.

(** The single byte 233, which is no ASCII. *)
Definition byte_233 : string := String (ascii_of_nat 233) EmptyString.

(** * Properties *)

(** ** The shape of every run *)

Lemma run_parsed (locale : GLib.Locale) (host : string -> string -> string -> MDomain)
    (argv argv' : list string) (g' : Globals) :
  parse_outcome locale argv = GLib.Parsed argv' g' ->
  run locale host argv =
    Returned 0%Z
      {| globals := g'; contexts := [released_context]; stdout := [];
         calls := prologue argv
                  ++ hosting (host (mono_lib g') (mono_etc g') "Launcher.exe")
                       g' argv'
                  ++ [G_option_context_free 0] |}.
Proof.
  intros H. unfold parse_outcome, launcher_context in H.
  unfold run, main, bind, g_option_context_new, g_option_context_parse.
  cbn. rewrite H. reflexivity.
Qed.

Lemma run_failed (locale : GLib.Locale) (host : string -> string -> string -> MDomain)
    (argv : list string) (error : GLib.GError) :
  parse_outcome locale argv = GLib.Failed error ->
  run locale host argv =
    Returned 1%Z
      {| globals := initial_globals; contexts := [launcher_context];
         stdout := [Text ("Invalid option: " ++ GLib.message error ++ LF)];
         calls := prologue argv
                  ++ [G_print ("Invalid option: "
                               ++ GLib.message error ++ LF)] |}.
Proof.
  intros H. unfold parse_outcome, launcher_context in H.
  unfold run, main, bind, g_option_context_new, g_option_context_parse.
  cbn. rewrite H. reflexivity.
Qed.

Lemma run_help (locale : GLib.Locale) (host : string -> string -> string -> MDomain)
    (argv : list string) (main_help : bool) :
  parse_outcome locale argv = GLib.HelpExit main_help ->
  run locale host argv =
    Exited 0%Z
      {| globals := initial_globals; contexts := [launcher_context];
         stdout := [HelpScreen launcher_context main_help];
         calls := prologue argv |}.
Proof.
  intros H. unfold parse_outcome, launcher_context in H.
  unfold run, main, bind, g_option_context_new, g_option_context_parse.
  cbn. rewrite H. reflexivity.
Qed.

(** ** Facts about the parser *)

Lemma append_empty (s : string) : (s ++ "")%string = s.
Proof.
  induction s as [|c s IH]; simpl; [reflexivity | now rewrite IH].
Qed.

Lemma strip_prefix_sound (p s r : string) :
  strip_prefix p s = Some r -> s = (p ++ r)%string.
Proof.
  revert s. induction p as [|c p IH]; intros s H; simpl in H.
  - now inversion H.
  - destruct s as [|d s]; [discriminate|].
    destruct (Ascii.eqb c d) eqn:E; [|discriminate].
    apply Ascii.eqb_eq in E. subst d. simpl. f_equal. now apply IH.
Qed.

Lemma deref_assign_other (p q : Global) (v : string) (g : Globals) :
  q <> p -> deref p (assign q v g) = deref p g.
Proof.
  destruct p, q; simpl; intros H; try reflexivity; now elim H.
Qed.

(** What a successful [parse_arg] leaves: the converted value behind
    [arg_data], everything else as it was. *)
Lemma parse_arg_stored (locale : GLib.Locale) (e : GLib.GOptionEntry)
    (value : string) (st st' : GLib.LoopState) :
  GLib.parse_arg locale e value st = inr st' ->
  exists data,
    GLib.g_locale_to_utf8 locale value = inr data
    /\ GLib.store st' = assign (GLib.arg_data e) data (GLib.store st)
    /\ GLib.stop_parsing st' = GLib.stop_parsing st
    /\ GLib.pending_nulls st' = GLib.pending_nulls st
    /\ GLib.i st' = GLib.i st.
Proof.
  unfold GLib.parse_arg.
  destruct (GLib.g_locale_to_utf8 locale value) as [error|data];
    intros H; inversion H; subst. now exists data.
Qed.

Lemma parse_arg_failed (locale : GLib.Locale) (e : GLib.GOptionEntry)
    (value : string) (st : GLib.LoopState) (error : GLib.GError) :
  GLib.parse_arg locale e value st = inl error ->
  GLib.g_locale_to_utf8 locale value = inl error.
Proof.
  unfold GLib.parse_arg.
  destruct (GLib.g_locale_to_utf8 locale value) as [error'|data];
    intros H; now inversion H.
Qed.

(** A variable is written only by an option that names an entry whose
    [arg_data] points at it. *)
Lemma parse_long_option_deref (locale : GLib.Locale) (p : Global)
    (arg : string) (entries : list GLib.GOptionEntry) :
  forall rest idx0 taken parsed st taken' parsed' st',
    (forall e, In e entries -> GLib.arg_data e = p ->
               ~ supplies (GLib.long_name e) ("--" ++ arg)) ->
    GLib.parse_long_option locale entries arg rest idx0 taken parsed st
      = inr (taken', parsed', st') ->
    deref p (GLib.store st') = deref p (GLib.store st).
Proof.
  induction entries as [|e entries IH]; intros rest idx0 taken parsed st
    taken' parsed' st' Hno H; simpl in H.
  - now inversion H.
  - assert (Hrest : forall e', In e' entries -> GLib.arg_data e' = p ->
                      ~ supplies (GLib.long_name e') ("--" ++ arg))
      by (intros e' Hin; apply Hno; now right).
    destruct (strip_prefix (GLib.long_name e) arg) as [[|c value]|] eqn:E.
    + apply strip_prefix_sound in E. rewrite append_empty in E.
      destruct (nth_error rest taken) as [v|]; [|discriminate].
      destruct (GLib.parse_arg locale e v _) as [error|st3] eqn:Earg;
        [discriminate|].
      apply parse_arg_stored in Earg.
      destruct Earg as (data & _ & Hstore & _).
      apply IH in H; [|exact Hrest]. rewrite H, Hstore. simpl.
      apply deref_assign_other. intros Hp.
      apply (Hno e (or_introl eq_refl) Hp). left. now rewrite E.
    + destruct (Ascii.eqb c "=") eqn:Ec.
      * apply Ascii.eqb_eq in Ec. subst c. apply strip_prefix_sound in E.
        destruct (GLib.parse_arg locale e value _) as [error|st2] eqn:Earg;
          [discriminate|].
        apply parse_arg_stored in Earg.
        destruct Earg as (data & _ & Hstore & _).
        apply IH in H; [|exact Hrest]. rewrite H, Hstore. simpl.
        apply deref_assign_other. intros Hp.
        apply (Hno e (or_introl eq_refl) Hp). right. exists value.
        now rewrite E.
      * now apply IH in H.
    + now apply IH in H.
Qed.

Lemma parse_long_option_stop (locale : GLib.Locale) (arg : string)
    (entries : list GLib.GOptionEntry) :
  forall rest idx0 taken parsed st taken' parsed' st',
    GLib.parse_long_option locale entries arg rest idx0 taken parsed st
      = inr (taken', parsed', st') ->
    GLib.stop_parsing st' = GLib.stop_parsing st.
Proof.
  induction entries as [|e entries IH]; intros rest idx0 taken parsed st
    taken' parsed' st' H; simpl in H.
  - now inversion H.
  - destruct (strip_prefix (GLib.long_name e) arg) as [[|c value]|].
    + destruct (nth_error rest taken) as [v|]; [|discriminate].
      destruct (GLib.parse_arg locale e v _) as [error|st3] eqn:Earg;
        [discriminate|].
      apply parse_arg_stored in Earg.
      destruct Earg as (data & _ & _ & Hstop & _).
      apply IH in H. now rewrite H, Hstop.
    + destruct (Ascii.eqb c "="); [|now apply IH in H].
      destruct (GLib.parse_arg locale e value _) as [error|st2] eqn:Earg;
        [discriminate|].
      apply parse_arg_stored in Earg.
      destruct Earg as (data & _ & _ & Hstop & _).
      apply IH in H. now rewrite H, Hstop.
    + now apply IH in H.
Qed.

(** Only a bare option, one whose text is exactly an entry's name, takes
    the following argument as its value. *)
Lemma parse_long_option_taken (locale : GLib.Locale) (arg : string)
    (entries : list GLib.GOptionEntry) :
  forall rest idx0 taken parsed st taken' parsed' st',
    (forall e, In e entries -> GLib.long_name e <> arg) ->
    GLib.parse_long_option locale entries arg rest idx0 taken parsed st
      = inr (taken', parsed', st') ->
    taken' = taken.
Proof.
  induction entries as [|e entries IH]; intros rest idx0 taken parsed st
    taken' parsed' st' Hno H; simpl in H.
  - now inversion H.
  - assert (Hrest : forall e', In e' entries -> GLib.long_name e' <> arg)
      by (intros e' Hin; apply Hno; now right).
    destruct (strip_prefix (GLib.long_name e) arg) as [[|c value]|] eqn:E.
    + apply strip_prefix_sound in E. rewrite append_empty in E.
      elim (Hno e (or_introl eq_refl)). now symmetry.
    + destruct (Ascii.eqb c "="); [|now apply IH in H].
      destruct (GLib.parse_arg locale e value _) as [error|st2];
        [discriminate|]. now apply IH in H.
    + now apply IH in H.
Qed.

(** [parse_long_option] fails in two ways only: a value is missing, or
    the conversion of a value fails. *)
Lemma parse_long_option_error (locale : GLib.Locale) (arg : string)
    (entries : list GLib.GOptionEntry) :
  forall rest idx0 taken parsed st error,
    GLib.parse_long_option locale entries arg rest idx0 taken parsed st
      = inl error ->
    (GLib.domain error = GLib.G_OPTION_ERROR
     /\ GLib.code error = GLib.G_OPTION_ERROR_BAD_VALUE)
    \/ GLib.domain error = GLib.G_CONVERT_ERROR.
Proof.
  induction entries as [|e entries IH]; intros rest idx0 taken parsed st
    error H; simpl in H.
  - discriminate.
  - destruct (strip_prefix (GLib.long_name e) arg) as [[|c value]|].
    + destruct (nth_error rest taken) as [v|].
      * destruct (GLib.parse_arg locale e v _) as [error'|st3] eqn:Earg;
          [|now apply IH in H].
        inversion H; subst. right. apply parse_arg_failed in Earg.
        exact (GLib.convert_error_domain locale _ _ Earg).
      * inversion H. left. now split.
    + destruct (Ascii.eqb c "="); [|now apply IH in H].
      destruct (GLib.parse_arg locale e value _) as [error'|st2] eqn:Earg;
        [|now apply IH in H].
      inversion H; subst. right. apply parse_arg_failed in Earg.
      exact (GLib.convert_error_domain locale _ _ Earg).
    + now apply IH in H.
Qed.

Lemma dashes (c0 c1 : ascii) (arg : string) :
  Ascii.eqb c0 "-" = true -> Ascii.eqb c1 "-" = true ->
  String c0 (String c1 arg) = ("--" ++ arg)%string.
Proof.
  intros H0 H1. apply Ascii.eqb_eq in H0, H1. now subst.
Qed.

Lemma parse_loop_deref (locale : GLib.Locale) (p : Global) (context : GLib.GOptionContext)
    (args : list string) :
  forall skip st st',
    Forall (fun a => forall e, In e (GLib.main_entries context) ->
                       GLib.arg_data e = p ->
                       ~ supplies (GLib.long_name e) a) args ->
    GLib.parse_loop locale context args skip st = GLib.Finished st' ->
    deref p (GLib.store st') = deref p (GLib.store st).
Proof.
  induction args as [|a rest IH]; intros skip st st' HF H; simpl in H.
  - now inversion H.
  - inversion HF as [|? ? Ha Hrest]; subst.
    destruct skip as [|skip]; [|now apply IH in H].
    destruct a as [|c0 [|c1 arg]]; try (now apply IH in H).
    destruct (Ascii.eqb c0 "-" && negb (GLib.stop_parsing st)) eqn:E0;
      [|now apply IH in H].
    apply andb_true_iff in E0. destruct E0 as [E0 _].
    destruct (Ascii.eqb c1 "-") eqn:E1.
    + destruct arg as [|c2 arg]; [now apply IH in H|].
      destruct (GLib.help_enabled context && (String c2 arg =? "help")%string);
        [discriminate|].
      destruct (GLib.help_enabled context
                && (String c2 arg =? "help-all")%string); [discriminate|].
      destruct (GLib.parse_long_option locale (GLib.main_entries context)
                  (String c2 arg) rest (GLib.i st) 0 false st)
        as [error | [[taken parsed] st1]] eqn:Epl; [discriminate|].
      destruct parsed; [|discriminate].
      apply IH in H; [|exact Hrest]. simpl in H. rewrite H.
      eapply parse_long_option_deref; [|exact Epl].
      rewrite <- (dashes c0 c1 _ E0 E1). exact Ha.
    + destruct (GLib.help_enabled context
                && (Ascii.eqb c1 "?" || Ascii.eqb c1 "h")); discriminate.
Qed.

Lemma parse_loop_error (locale : GLib.Locale) (context : GLib.GOptionContext)
    (args : list string) :
  forall skip st error,
    GLib.parse_loop locale context args skip st = GLib.Fail error ->
    (GLib.domain error = GLib.G_OPTION_ERROR
     /\ (GLib.code error = GLib.G_OPTION_ERROR_UNKNOWN_OPTION
         \/ GLib.code error = GLib.G_OPTION_ERROR_BAD_VALUE))
    \/ GLib.domain error = GLib.G_CONVERT_ERROR.
Proof.
  induction args as [|a rest IH]; intros skip st error H; simpl in H.
  - discriminate.
  - destruct skip as [|skip]; [|now apply IH in H].
    destruct a as [|c0 [|c1 arg]]; try (now apply IH in H).
    destruct (Ascii.eqb c0 "-" && negb (GLib.stop_parsing st));
      [|now apply IH in H].
    destruct (Ascii.eqb c1 "-").
    + destruct arg as [|c2 arg]; [now apply IH in H|].
      destruct (GLib.help_enabled context && (String c2 arg =? "help")%string);
        [discriminate|].
      destruct (GLib.help_enabled context
                && (String c2 arg =? "help-all")%string); [discriminate|].
      destruct (GLib.parse_long_option locale (GLib.main_entries context)
                  (String c2 arg) rest (GLib.i st) 0 false st)
        as [error' | [[taken parsed] st1]] eqn:Epl.
      * inversion H; subst.
        apply parse_long_option_error in Epl.
        destruct Epl as [[Hd Hc] | Hd]; [left | now right].
        split; [exact Hd | now right].
      * destruct parsed; [now apply IH in H|].
        inversion H. left. split; [reflexivity | now left].
    + destruct (GLib.help_enabled context
                && (Ascii.eqb c1 "?" || Ascii.eqb c1 "h"));
        [discriminate|].
      inversion H. left. split; [reflexivity | now left].
Qed.

Lemma option_entries_names (arg : string) :
  ("--" ++ arg =? "--mono-lib")%string || ("--" ++ arg =? "--mono-etc")%string
    = false ->
  forall e, In e option_entries -> GLib.long_name e <> arg.
Proof.
  intros H e [He | [He | []]] Hn; subst e; simpl in Hn; subst arg;
    vm_compute in H; discriminate H.
Qed.

(** Arguments in front that form complete items leave the scanner ready
    to read the next argument as an option. *)
Lemma parse_loop_before (locale : GLib.Locale) (before : list string) :
  forall skip rest st final,
    option_position skip before = true ->
    GLib.stop_parsing st = false ->
    GLib.parse_loop locale launcher_context (before ++ rest) skip st
      = GLib.Finished final ->
    exists st', GLib.stop_parsing st' = false
                /\ GLib.parse_loop locale launcher_context rest 0 st'
                   = GLib.Finished final.
Proof.
  remember launcher_context as context eqn:Hcontext.
  induction before as [|a before IH]; intros skip rest st final Hpos Hs H.
  - simpl in Hpos. apply Nat.eqb_eq in Hpos. subst skip. now exists st.
  - simpl in Hpos. rewrite <- app_comm_cons in H. simpl in H.
    destruct skip as [|skip]; [|now apply (IH _ _ _ _ Hpos) in H].
    destruct (a =? "--")%string eqn:Esep; [discriminate|].
    destruct ((a =? "--mono-lib")%string || (a =? "--mono-etc")%string)
      eqn:Ebare.
    + (* a bare option: the next argument is its value *)
      destruct before as [|v before]; [discriminate|].
      apply orb_true_iff in Ebare.
      destruct Ebare as [Ea | Ea]; apply String.eqb_eq in Ea; subst a;
        rewrite Hs in H; subst context; cbn in H;
        (destruct (GLib.parse_arg locale _ v _) as [error|st3] eqn:Earg;
           [discriminate|]);
        apply parse_arg_stored in Earg;
        destruct Earg as (data & _ & _ & Hstop & _);
        cbn in H; (apply (IH _ _ _ _ Hpos) in H; [exact H|]);
        cbn; rewrite Hstop; exact Hs.
    + destruct a as [|c0 [|c1 arg]];
        try (now apply (IH _ _ _ _ Hpos) in H).
      rewrite Hs in H. rewrite andb_true_r in H.
      replace (GLib.help_enabled context) with true in H
        by now subst context.
      destruct (Ascii.eqb c0 "-") eqn:E0;
        [|now apply (IH _ _ _ _ Hpos) in H].
      destruct (Ascii.eqb c1 "-") eqn:E1.
      * rewrite (dashes _ _ _ E0 E1) in Esep, Ebare.
        destruct arg as [|c2 arg]; [discriminate|].
        rewrite !andb_true_l in H.
        destruct (String c2 arg =? "help")%string; [discriminate|].
        destruct (String c2 arg =? "help-all")%string; [discriminate|].
        destruct (GLib.parse_long_option locale (GLib.main_entries context)
                    (String c2 arg) (before ++ rest) (GLib.i st) 0 false st)
          as [error | [[taken parsed] st1]] eqn:Epl; [discriminate|].
        destruct parsed; [|discriminate].
        pose proof (parse_long_option_stop _ _ _ _ _ _ _ _ _ _ _ Epl) as Hs1.
        apply parse_long_option_taken in Epl;
          [|subst context; now apply option_entries_names].
        subst taken. apply (IH _ _ _ _ Hpos) in H; [exact H|].
        simpl. now rewrite Hs1.
      * rewrite andb_true_l in H.
        destruct (Ascii.eqb c1 "?" || Ascii.eqb c1 "h"); discriminate.
Qed.

Lemma parsed_store (locale : GLib.Locale) (argv argv' : list string) (g' : Globals) :
  parse_outcome locale argv = GLib.Parsed argv' g' ->
  exists final,
    g' = GLib.store final
    /\ GLib.parse_loop locale launcher_context (tl argv) 0
         {| GLib.i := 1; GLib.stop_parsing := false;
            GLib.separator_pos := 0; GLib.pending_nulls := [];
            GLib.store := initial_globals |} = GLib.Finished final.
Proof.
  unfold parse_outcome, GLib.g_option_context_parse. intros H.
  destruct (GLib.parse_loop locale launcher_context (tl argv) 0 _) as [final| |];
    [|discriminate|discriminate].
  exists final. split; [now inversion H | reflexivity].
Qed.

(** The parser fails on an unknown option, on a missing value, or on a
    value the locale cannot convert. *)
Lemma failed_code (locale : GLib.Locale) (argv : list string)
    (error : GLib.GError) :
  parse_outcome locale argv = GLib.Failed error ->
  (GLib.domain error = GLib.G_OPTION_ERROR
   /\ (GLib.code error = GLib.G_OPTION_ERROR_UNKNOWN_OPTION
       \/ GLib.code error = GLib.G_OPTION_ERROR_BAD_VALUE))
  \/ GLib.domain error = GLib.G_CONVERT_ERROR.
Proof.
  unfold parse_outcome, GLib.g_option_context_parse. intros H.
  destruct (GLib.parse_loop locale launcher_context (tl argv) 0 _)
    as [final|error'|] eqn:E; [discriminate| |discriminate].
  inversion H; subst. now apply parse_loop_error in E.
Qed.

(** What a run prints and how it exits does not depend on the hosting
    library at all. *)
Lemma output_independent_of_host (locale : GLib.Locale)
    (host1 host2 : string -> string -> string -> MDomain)
    (argv : list string) :
  exit_status (run locale host1 argv) = exit_status (run locale host2 argv)
  /\ stdout_of (run locale host1 argv) = stdout_of (run locale host2 argv).
Proof.
  destruct (parse_outcome locale argv) as [argv' g'|error|main_help] eqn:E.
  - now rewrite (run_parsed locale host1 _ _ _ E), (run_parsed locale host2 _ _ _ E).
  - now rewrite (run_failed locale host1 _ _ E), (run_failed locale host2 _ _ E).
  - now rewrite (run_help locale host1 _ _ E), (run_help locale host2 _ _ E).
Qed.

Lemma parse_outcome_loop (locale : GLib.Locale) (argv : list string) :
  parse_outcome locale argv
  = match GLib.parse_loop locale launcher_context (tl argv) 0 loop_start with
    | GLib.Finished st =>
        GLib.Parsed
          (GLib.compact argv 0
             (if Nat.ltb 0 (GLib.separator_pos st)
              then GLib.separator_pos st :: GLib.pending_nulls st
              else GLib.pending_nulls st))
          (GLib.store st)
    | GLib.Fail error => GLib.Failed error
    | GLib.PrintHelp main_help => GLib.HelpExit main_help
    end.
Proof.
  reflexivity.
Qed.

Lemma advance_zero (st : GLib.LoopState) : advance 0 st = st.
Proof.
  now destruct st.
Qed.

(** Arguments without a leading dash are passed over: only the index
    moves. *)
Lemma parse_loop_plain (locale : GLib.Locale) (context : GLib.GOptionContext)
    (before : list string) :
  forall rest st,
    Forall plain before ->
    GLib.stop_parsing st = false ->
    GLib.parse_loop locale context (before ++ rest) 0 st
    = GLib.parse_loop locale context rest 0 (advance (List.length before) st).
Proof.
  induction before as [|a before IH]; intros rest st Hplain Hs.
  - simpl. now rewrite advance_zero.
  - inversion Hplain as [|? ? Ha Hbefore]; subst. unfold plain in Ha.
    assert (Hstep :
      GLib.parse_loop locale context ((a :: before) ++ rest) 0 st
      = GLib.parse_loop locale context (before ++ rest) 0 (advance 1 st)).
    { simpl. destruct a as [|c0 [|c1 arg]]; simpl in Ha |- *.
      - reflexivity.
      - now rewrite Ha.
      - now rewrite Ha. }
    rewrite Hstep, IH; [|exact Hbefore|exact Hs].
    f_equal. unfold advance. simpl. f_equal.
    now rewrite Nat.add_succ_r.
Qed.

Lemma compact_nil (argv : list string) :
  forall k, GLib.compact argv k [] = argv.
Proof.
  induction argv as [|a argv IH]; intros k; simpl;
    [reflexivity | now rewrite IH].
Qed.

Lemma plain_parsed (locale : GLib.Locale) (argv : list string) :
  Forall plain (tl argv) ->
  parse_outcome locale argv = GLib.Parsed argv initial_globals.
Proof.
  intros H. rewrite parse_outcome_loop.
  rewrite <- (app_nil_r (tl argv)).
  rewrite parse_loop_plain; [|exact H|reflexivity]. simpl.
  now rewrite compact_nil.
Qed.

(** An option text that names no entry leaves [parse_long_option] without
    effect. *)
Lemma parse_long_option_unmatched (locale : GLib.Locale) (arg : string)
    (entries : list GLib.GOptionEntry) :
  forall rest idx0 taken parsed st,
    (forall e, In e entries -> ~ supplies (GLib.long_name e) ("--" ++ arg)) ->
    GLib.parse_long_option locale entries arg rest idx0 taken parsed st
    = inr (taken, parsed, st).
Proof.
  induction entries as [|e entries IH]; intros rest idx0 taken parsed st Hno;
    simpl; [reflexivity|].
  assert (Hrest : forall e', In e' entries ->
                    ~ supplies (GLib.long_name e') ("--" ++ arg))
    by (intros e' Hin; apply Hno; now right).
  destruct (strip_prefix (GLib.long_name e) arg) as [[|c value]|] eqn:E.
  - apply strip_prefix_sound in E. rewrite append_empty in E.
    elim (Hno e (or_introl eq_refl)). left. now rewrite E.
  - destruct (Ascii.eqb c "=") eqn:Ec; [|now apply IH].
    apply Ascii.eqb_eq in Ec. subst c. apply strip_prefix_sound in E.
    elim (Hno e (or_introl eq_refl)). right. exists value. now rewrite E.
  - now apply IH.
Qed.

Lemma parse_loop_unknown (locale : GLib.Locale) (context : GLib.GOptionContext) (arg : string)
    (rest : list string) (st : GLib.LoopState) :
  GLib.stop_parsing st = false ->
  arg <> ""%string -> arg <> "help"%string -> arg <> "help-all"%string ->
  (forall e, In e (GLib.main_entries context) ->
             ~ supplies (GLib.long_name e) ("--" ++ arg)) ->
  GLib.parse_loop locale context (("--" ++ arg)%string :: rest) 0 st
  = GLib.Fail (GLib.unknown_option locale ("--" ++ arg)).
Proof.
  intros Hs Hne Hhelp Hall Hno. simpl. rewrite Hs. simpl.
  destruct arg as [|c2 arg]; [now elim Hne|].
  apply String.eqb_neq in Hhelp, Hall. rewrite Hhelp, Hall.
  rewrite !andb_false_r.
  now rewrite (parse_long_option_unmatched _ _ _ _ _ _ _ _ Hno).
Qed.

Lemma option_entries_unsupplied (a : string) :
  ~ supplies "mono-lib" a -> ~ supplies "mono-etc" a ->
  forall e, In e (GLib.main_entries launcher_context) ->
            ~ supplies (GLib.long_name e) a.
Proof.
  intros Hlib Hetc e [He | [He | []]]; subst e; assumption.
Qed.

(** An option with an attached value, read in option position by a parse
    that goes on to succeed, was converted by the locale and stored
    behind the entry's [arg_data]. *)
Lemma parse_loop_attached (locale : GLib.Locale) (e : GLib.GOptionEntry)
    (X : string) (rest : list string) (st final : GLib.LoopState) :
  In e option_entries ->
  GLib.stop_parsing st = false ->
  GLib.parse_loop locale launcher_context
    (("--" ++ GLib.long_name e ++ "=" ++ X)%string :: rest) 0 st
    = GLib.Finished final ->
  exists data st',
    GLib.g_locale_to_utf8 locale X = inr data
    /\ deref (GLib.arg_data e) (GLib.store st') = data
    /\ GLib.stop_parsing st' = false
    /\ GLib.parse_loop locale launcher_context rest 0 st'
       = GLib.Finished final.
Proof.
  intros [He | [He | []]] Hs H; subst e; cbn in H; rewrite Hs in H;
    cbn in H;
    (destruct (GLib.parse_arg locale _ X _) as [error|st1] eqn:Earg;
       [discriminate|]);
    apply parse_arg_stored in Earg;
    destruct Earg as (data & Hconv & Hstore & Hstop & _);
    cbn in H; exists data, (GLib.next st1);
    (split; [exact Hconv|]);
    (split; [cbn; rewrite Hstore; reflexivity|]);
    (split; [cbn; rewrite Hstop; exact Hs | exact H]).
Qed.

(** The same for a bare option, whose value is the next argument. *)
Lemma parse_loop_bare (locale : GLib.Locale) (e : GLib.GOptionEntry)
    (X : string) (rest : list string) (st final : GLib.LoopState) :
  In e option_entries ->
  GLib.stop_parsing st = false ->
  GLib.parse_loop locale launcher_context
    (("--" ++ GLib.long_name e)%string :: X :: rest) 0 st
    = GLib.Finished final ->
  exists data st',
    GLib.g_locale_to_utf8 locale X = inr data
    /\ deref (GLib.arg_data e) (GLib.store st') = data
    /\ GLib.stop_parsing st' = false
    /\ GLib.parse_loop locale launcher_context rest 0 st'
       = GLib.Finished final.
Proof.
  intros [He | [He | []]] Hs H; subst e; cbn in H; rewrite Hs in H;
    cbn in H;
    (destruct (GLib.parse_arg locale _ X _) as [error|st1] eqn:Earg;
       [discriminate|]);
    apply parse_arg_stored in Earg;
    destruct Earg as (data & Hconv & Hstore & Hstop & _);
    cbn in H; exists data, (GLib.next (GLib.next st1));
    (split; [exact Hconv|]);
    (split; [cbn; rewrite Hstore; reflexivity|]);
    (split; [cbn; rewrite Hstop; exact Hs | exact H]).
Qed.

Lemma parse_loop_missing (locale : GLib.Locale) (e : GLib.GOptionEntry)
    (st : GLib.LoopState) :
  In e option_entries ->
  GLib.stop_parsing st = false ->
  GLib.parse_loop locale launcher_context
    [("--" ++ GLib.long_name e)%string] 0 st
  = GLib.Fail {| GLib.domain := GLib.G_OPTION_ERROR;
                 GLib.code := GLib.G_OPTION_ERROR_BAD_VALUE;
                 GLib.message :=
                   GLib.missing_argument_text locale
                     ("--" ++ GLib.long_name e) |}.
Proof.
  intros [He | [He | []]] Hs; subst e; cbn; rewrite Hs; reflexivity.
Qed.

Lemma entry_variable (e e' : GLib.GOptionEntry) :
  In e option_entries -> In e' option_entries ->
  GLib.arg_data e' = GLib.arg_data e -> e' = e.
Proof.
  intros [He | [He | []]] [He' | [He' | []]]; subst e e'; simpl;
    intros H; try reflexivity; discriminate H.
Qed.

Lemma parse_loop_unknown_short (locale : GLib.Locale) (context : GLib.GOptionContext)
    (c : ascii) (s : string) (rest : list string) (st : GLib.LoopState) :
  GLib.stop_parsing st = false ->
  c <> "-"%char -> c <> "?"%char -> c <> "h"%char ->
  GLib.parse_loop locale context (String "-" (String c s) :: rest) 0 st
  = GLib.Fail (GLib.unknown_option locale (String "-" (String c s))).
Proof.
  intros Hs Hdash Hq Hh. simpl. rewrite Hs. simpl.
  apply Ascii.eqb_neq in Hdash, Hq, Hh. rewrite Hdash, Hq, Hh.
  now rewrite andb_false_r.
Qed.

Lemma unrecognized_fails (locale : GLib.Locale) (a : string) (rest : list string)
    (st : GLib.LoopState) :
  GLib.stop_parsing st = false ->
  unrecognized a ->
  GLib.parse_loop locale launcher_context (a :: rest) 0 st
  = GLib.Fail (GLib.unknown_option locale a).
Proof.
  intros Hs [(arg & Ha & Hne & Hhelp & Hall & Hlib & Hetc)
            | (c & s & Ha & Hdash & Hq & Hh)]; subst a.
  - apply parse_loop_unknown; try assumption.
    now apply option_entries_unsupplied.
  - now apply parse_loop_unknown_short.
Qed.

Lemma asks_help_exits (locale : GLib.Locale) (a : string) (rest : list string)
    (st : GLib.LoopState) :
  GLib.stop_parsing st = false ->
  asks_help a ->
  exists main_help,
    GLib.parse_loop locale launcher_context (a :: rest) 0 st
    = GLib.PrintHelp main_help.
Proof.
  intros Hs [Ha | [Ha | [s [Ha | Ha]]]]; subst a; cbn; rewrite Hs; cbn;
    eexists; reflexivity.
Qed.

Lemma parse_loop_attached_next (locale : GLib.Locale)
    (e : GLib.GOptionEntry) (X data : string) (st : GLib.LoopState) :
  In e option_entries ->
  GLib.stop_parsing st = false ->
  GLib.g_locale_to_utf8 locale X = inr data ->
  exists st',
    GLib.stop_parsing st' = false
    /\ forall rest,
         GLib.parse_loop locale launcher_context
           (("--" ++ GLib.long_name e ++ "=" ++ X)%string :: rest) 0 st
         = GLib.parse_loop locale launcher_context rest 0 st'.
Proof.
  intros [He | [He | []]] Hs Hconv; subst e; eexists;
    (split; [|intros rest; cbn; rewrite Hs; cbn; unfold GLib.parse_arg;
              rewrite Hconv; cbn; reflexivity]);
    exact Hs.
Qed.

Lemma parse_loop_bare_next (locale : GLib.Locale)
    (e : GLib.GOptionEntry) (X data : string) (st : GLib.LoopState) :
  In e option_entries ->
  GLib.stop_parsing st = false ->
  GLib.g_locale_to_utf8 locale X = inr data ->
  exists st',
    GLib.stop_parsing st' = false
    /\ forall rest,
         GLib.parse_loop locale launcher_context
           (("--" ++ GLib.long_name e)%string :: X :: rest) 0 st
         = GLib.parse_loop locale launcher_context rest 0 st'.
Proof.
  intros [He | [He | []]] Hs Hconv; subst e; eexists;
    (split; [|intros rest; cbn; rewrite Hs; cbn; unfold GLib.parse_arg;
              rewrite Hconv; cbn; reflexivity]);
    exact Hs.
Qed.

(** Well-formed arguments in front are consumed without failure and
    leave the parser scanning for options. *)
Lemma parse_loop_well_formed (locale : GLib.Locale) (before : list string) :
  well_formed locale before ->
  forall st,
    GLib.stop_parsing st = false ->
    exists st',
      GLib.stop_parsing st' = false
      /\ forall rest,
           GLib.parse_loop locale launcher_context (before ++ rest) 0 st
           = GLib.parse_loop locale launcher_context rest 0 st'.
Proof.
  induction 1 as [|a l Ha _ IH|e X data l He Hconv _ IH
                  |e X data l He Hconv _ IH]; intros st Hs.
  - exists st. now split.
  - destruct (IH (advance 1 st) Hs) as (st' & Hs' & Hrest).
    exists st'. split; [exact Hs'|]. intros rest.
    rewrite <- Hrest.
    apply (parse_loop_plain locale launcher_context [a] (l ++ rest) st);
      [now constructor | exact Hs].
  - destruct (parse_loop_attached_next locale e X data st He Hs Hconv)
      as (st1 & Hs1 & Hstep).
    destruct (IH st1 Hs1) as (st' & Hs' & Hrest).
    exists st'. split; [exact Hs'|]. intros rest.
    rewrite <- Hrest. apply Hstep.
  - destruct (parse_loop_bare_next locale e X data st He Hs Hconv)
      as (st1 & Hs1 & Hstep).
    destruct (IH st1 Hs1) as (st' & Hs' & Hrest).
    exists st'. split; [exact Hs'|]. intros rest.
    rewrite <- Hrest. apply Hstep.
Qed.

Lemma plain_well_formed (locale : GLib.Locale) (before : list string) :
  Forall plain before -> well_formed locale before.
Proof.
  induction 1; now constructor.
Qed.

(** Once [--] was met, every argument is passed over; one that starts
    with a dash makes the parser keep the [--]. *)
Lemma parse_loop_stopped (locale : GLib.Locale) (context : GLib.GOptionContext)
    (after : list string) :
  forall st,
    GLib.stop_parsing st = true ->
    GLib.parse_loop locale context after 0 st
    = GLib.Finished
        {| GLib.i := List.length after + GLib.i st;
           GLib.stop_parsing := true;
           GLib.separator_pos :=
             if existsb GLib.starts_with_dash after
             then 0 else GLib.separator_pos st;
           GLib.pending_nulls := GLib.pending_nulls st;
           GLib.store := GLib.store st |}.
Proof.
  induction after as [|a after IH]; intros st Hs.
  - simpl. destruct st; simpl in *. now subst.
  - assert (Hstep :
      GLib.parse_loop locale context (a :: after) 0 st
      = GLib.parse_loop locale context after 0
          {| GLib.i := S (GLib.i st); GLib.stop_parsing := true;
             GLib.separator_pos :=
               if GLib.starts_with_dash a then 0 else GLib.separator_pos st;
             GLib.pending_nulls := GLib.pending_nulls st;
             GLib.store := GLib.store st |}).
    { simpl. rewrite Hs. destruct a as [|c0 [|c1 arg]]; simpl;
        try reflexivity. now rewrite andb_false_r. }
    rewrite Hstep, IH; [|reflexivity]. simpl. f_equal. f_equal.
    + now rewrite Nat.add_succ_r.
    + destruct (GLib.starts_with_dash a),
        (existsb GLib.starts_with_dash after); reflexivity.
Qed.

Lemma parse_loop_separator (locale : GLib.Locale) (context : GLib.GOptionContext)
    (after : list string) (st : GLib.LoopState) :
  GLib.stop_parsing st = false ->
  GLib.parse_loop locale context ("--"%string :: after) 0 st
  = GLib.parse_loop locale context after 0
      {| GLib.i := S (GLib.i st); GLib.stop_parsing := true;
         GLib.separator_pos := GLib.i st;
         GLib.pending_nulls := GLib.pending_nulls st;
         GLib.store := GLib.store st |}.
Proof.
  intros Hs. simpl. now rewrite Hs.
Qed.

Lemma compact_outside (l : list string) :
  forall k n, n < k -> GLib.compact l k [n] = l.
Proof.
  induction l as [|a l IH]; intros k n H; simpl; [reflexivity|].
  replace (Nat.eqb k n) with false
    by (symmetry; apply Nat.eqb_neq; lia).
  simpl. rewrite IH; [reflexivity | lia].
Qed.

Lemma compact_single (l1 l2 : list string) (x : string) :
  forall k, GLib.compact (l1 ++ x :: l2) k [k + List.length l1] = l1 ++ l2.
Proof.
  induction l1 as [|y l1 IH]; intros k; simpl.
  - rewrite Nat.add_0_r, Nat.eqb_refl. simpl.
    apply compact_outside. lia.
  - replace (Nat.eqb k (k + S (List.length l1))) with false
      by (symmetry; apply Nat.eqb_neq; lia).
    simpl. f_equal. rewrite <- Nat.add_succ_comm. apply IH.
Qed.

Lemma separator_parsed (locale : GLib.Locale) (prog : string) (before after : list string) :
  Forall plain before ->
  parse_outcome locale (prog :: before ++ "--"%string :: after)
  = GLib.Parsed
      (prog :: before
       ++ (if existsb GLib.starts_with_dash after
           then ["--"%string] else [])
       ++ after)
      initial_globals.
Proof.
  intros Hplain. rewrite parse_outcome_loop. cbn [tl].
  rewrite parse_loop_plain; [|exact Hplain|reflexivity].
  rewrite parse_loop_separator; [|reflexivity].
  rewrite parse_loop_stopped; [|reflexivity].
  cbn [GLib.separator_pos GLib.pending_nulls GLib.store GLib.i advance
       loop_start].
  destruct (existsb GLib.starts_with_dash after).
  - simpl. now rewrite compact_nil.
  - replace (Nat.ltb 0 (List.length before + 1)) with true
      by (symmetry; apply Nat.ltb_lt; lia).
    f_equal.
    change (prog :: before ++ "--"%string :: after)
      with ((prog :: before) ++ "--"%string :: after).
    replace (List.length before + 1) with (0 + List.length (prog :: before))
      by (simpl; lia).
    now rewrite compact_single.
Qed.

Lemma compact_subsequence (argv : list string) (nulls : list nat) :
  forall k, subsequence (GLib.compact argv k nulls) argv.
Proof.
  induction argv as [|a argv IH]; intros k; simpl.
  - constructor.
  - destruct (existsb (Nat.eqb k) nulls); constructor; apply IH.
Qed.

Lemma subsequence_length {A : Type} (l1 l2 : list A) :
  subsequence l1 l2 -> List.length l1 <= List.length l2.
Proof.
  induction 1; simpl; lia.
Qed.

(** The parser never marks argv[0] for removal. *)
Lemma parse_long_option_nulls (locale : GLib.Locale) (arg : string)
    (entries : list GLib.GOptionEntry) :
  forall rest idx0 taken parsed st taken' parsed' st',
    1 <= idx0 ->
    Forall (le 1) (GLib.pending_nulls st) ->
    GLib.parse_long_option locale entries arg rest idx0 taken parsed st
      = inr (taken', parsed', st') ->
    Forall (le 1) (GLib.pending_nulls st') /\ GLib.i st' = GLib.i st.
Proof.
  induction entries as [|e entries IH]; intros rest idx0 taken parsed st
    taken' parsed' st' Hidx Hnulls H; simpl in H.
  - inversion H; subst. now split.
  - destruct (strip_prefix (GLib.long_name e) arg) as [[|c value]|].
    + destruct (nth_error rest taken) as [v|]; [|discriminate].
      destruct (GLib.parse_arg locale e v _) as [error|st3] eqn:Earg;
        [discriminate|].
      apply parse_arg_stored in Earg.
      destruct Earg as (data & _ & _ & _ & Hn & Hi).
      apply IH in H; [|exact Hidx|].
      * destruct H as [H1 H2]. split; [exact H1 | now rewrite H2, Hi].
      * rewrite Hn. simpl. repeat constructor; [lia | lia | exact Hnulls].
    + destruct (Ascii.eqb c "="); [|now apply IH in H].
      destruct (GLib.parse_arg locale e value _) as [error|st2] eqn:Earg;
        [discriminate|].
      apply parse_arg_stored in Earg.
      destruct Earg as (data & _ & _ & _ & Hn & Hi).
      apply IH in H; [|exact Hidx|].
      * destruct H as [H1 H2]. split; [exact H1 | now rewrite H2, Hi].
      * rewrite Hn. simpl. constructor; [lia | exact Hnulls].
    + now apply IH in H.
Qed.

Lemma parse_loop_nulls (locale : GLib.Locale) (context : GLib.GOptionContext)
    (args : list string) :
  forall skip st final,
    1 <= GLib.i st ->
    Forall (le 1) (GLib.pending_nulls st) ->
    GLib.parse_loop locale context args skip st = GLib.Finished final ->
    Forall (le 1) (GLib.pending_nulls final).
Proof.
  induction args as [|a rest IH]; intros skip st final Hi Hnulls H;
    simpl in H.
  - now inversion H; subst.
  - destruct skip as [|skip];
      [|apply IH in H; [exact H | simpl; lia | exact Hnulls]].
    assert (Hpass : forall sep,
      GLib.parse_loop locale context rest 0
        {| GLib.i := S (GLib.i st);
           GLib.stop_parsing := GLib.stop_parsing st;
           GLib.separator_pos := sep;
           GLib.pending_nulls := GLib.pending_nulls st;
           GLib.store := GLib.store st |} = GLib.Finished final ->
      Forall (le 1) (GLib.pending_nulls final)).
    { intros sep H'. apply IH in H'; [exact H' | simpl; lia | exact Hnulls]. }
    destruct a as [|c0 [|c1 arg]]; try (now apply Hpass in H).
    destruct (Ascii.eqb c0 "-" && negb (GLib.stop_parsing st));
      [|now apply Hpass in H].
    destruct (Ascii.eqb c1 "-").
    + destruct arg as [|c2 arg].
      * apply IH in H; [exact H | simpl; lia | exact Hnulls].
      * destruct (GLib.help_enabled context
                  && (String c2 arg =? "help")%string); [discriminate|].
        destruct (GLib.help_enabled context
                  && (String c2 arg =? "help-all")%string); [discriminate|].
        destruct (GLib.parse_long_option locale (GLib.main_entries context)
                    (String c2 arg) rest (GLib.i st) 0 false st)
          as [error | [[taken parsed] st1]] eqn:Epl; [discriminate|].
        destruct parsed; [|discriminate].
        apply parse_long_option_nulls in Epl; [|exact Hi|exact Hnulls].
        destruct Epl as [Hnulls1 Hi1].
        apply IH in H; [exact H | simpl; lia | exact Hnulls1].
    + destruct (GLib.help_enabled context
                && (Ascii.eqb c1 "?" || Ascii.eqb c1 "h")); discriminate.
Qed.

Lemma compact_head (a : string) (argv : list string) (nulls : list nat) :
  Forall (le 1) nulls ->
  hd_error (GLib.compact (a :: argv) 0 nulls) = Some a.
Proof.
  intros H.
  assert (E : existsb (Nat.eqb 0) nulls = false).
  { induction H as [|n nulls Hn _ IH]; cbn [existsb]; [reflexivity|].
    rewrite IH. destruct n; [lia | reflexivity]. }
  cbn [GLib.compact]. now rewrite E.
Qed.

Lemma parsed_argv (locale : GLib.Locale) (argv argv' : list string) (g' : Globals) :
  parse_outcome locale argv = GLib.Parsed argv' g' ->
  subsequence argv' argv /\ hd_error argv' = hd_error argv.
Proof.
  rewrite parse_outcome_loop. intros H.
  destruct (GLib.parse_loop locale launcher_context (tl argv) 0 loop_start)
    as [final| |] eqn:Eloop; [|discriminate|discriminate].
  inversion H; subst argv' g'. split; [apply compact_subsequence|].
  destruct argv as [|a argv]; [reflexivity|].
  apply compact_head.
  apply parse_loop_nulls in Eloop; [|simpl; lia|constructor].
  destruct (Nat.ltb 0 (GLib.separator_pos final)) eqn:Esep;
    [|exact Eloop].
  apply Nat.ltb_lt in Esep. constructor; [lia | exact Eloop].
Qed.

Lemma custom_paths_parsed (locale : GLib.Locale) (prog : string) :
  parse_outcome locale (custom_paths prog)
  = GLib.Parsed [prog; "foo"; "bar"]
      {| mono_lib := "Custom\lib"; mono_etc := "Custom\etc" |}.
Proof.
  unfold parse_outcome, GLib.g_option_context_parse, custom_paths.
  cbn. unfold GLib.parse_arg.
  rewrite (GLib.ascii_unchanged locale "Custom\lib" eq_refl). cbn.
  rewrite (GLib.ascii_unchanged locale "Custom\etc" eq_refl). cbn.
  reflexivity.
Qed.

Lemma unrecognized_parsed (locale : GLib.Locale) (prog a : string)
    (before after : list string) :
  well_formed locale before ->
  unrecognized a ->
  parse_outcome locale (prog :: before ++ a :: after)
  = GLib.Failed (GLib.unknown_option locale a).
Proof.
  intros Hbefore Ha.
  destruct (parse_loop_well_formed locale before Hbefore loop_start eq_refl)
    as (st' & Hs' & Hrest).
  rewrite parse_outcome_loop. cbn [tl]. rewrite Hrest.
  now rewrite unrecognized_fails.
Qed.

Lemma strip_prefix_complete (p r : string) :
  strip_prefix p (p ++ r) = Some r.
Proof.
  induction p as [|c p IH]; simpl; [reflexivity|].
  now rewrite Ascii.eqb_refl.
Qed.

Lemma names_option_spec (name a : string) :
  names_option name a = true <-> supplies name a.
Proof.
  unfold names_option, supplies. split.
  - destruct (strip_prefix ("--" ++ name) a) as [[|c r]|] eqn:E;
      [| |discriminate]; apply strip_prefix_sound in E.
    + intros _. left. now rewrite append_empty in E.
    + intros Hc. apply Ascii.eqb_eq in Hc. subst c.
      right. exists r. exact E.
  - intros [H | [value H]]; subst a.
    + rewrite <- (append_empty ("--" ++ name)) at 2.
      now rewrite strip_prefix_complete.
    + change ("--" ++ name ++ "=" ++ value)%string
        with (("--" ++ name) ++ String "=" value)%string.
      now rewrite strip_prefix_complete.
Qed.

(** After [--] no argument changes a path. *)
Lemma parse_loop_stopped_store (locale : GLib.Locale)
    (context : GLib.GOptionContext) (args : list string) :
  forall skip st final,
    GLib.stop_parsing st = true ->
    GLib.parse_loop locale context args skip st = GLib.Finished final ->
    GLib.store final = GLib.store st.
Proof.
  induction args as [|a rest IH]; intros skip st final Hs H; simpl in H.
  - now inversion H.
  - destruct skip as [|skip]; [|now apply IH in H].
    rewrite Hs in H.
    destruct a as [|c0 [|c1 arg]]; try (now apply IH in H).
    rewrite andb_false_r in H. now apply IH in H.
Qed.

(** A path is left alone by arguments none of which is read as its
    option. *)
Lemma parse_loop_unread (locale : GLib.Locale) (e : GLib.GOptionEntry)
    (args : list string) :
  In e option_entries ->
  forall skip st final,
    read_later (GLib.long_name e) skip args = false ->
    GLib.parse_loop locale launcher_context args skip st
      = GLib.Finished final ->
    deref (GLib.arg_data e) (GLib.store final)
    = deref (GLib.arg_data e) (GLib.store st).
Proof.
  intros He. remember launcher_context as context eqn:Hcontext.
  induction args as [|a rest IH]; intros skip st final Hr H.
  - simpl in H. now inversion H.
  - destruct (GLib.stop_parsing st) eqn:Hs;
      [now rewrite (parse_loop_stopped_store _ _ _ _ _ _ Hs H)|].
    simpl in Hr. destruct skip as [|skip].
    2:{ simpl in H. now apply (IH _ _ _ Hr) in H. }
    destruct (a =? "--")%string eqn:Esep.
    { apply String.eqb_eq in Esep. subst a. simpl in H.
      rewrite Hs in H. simpl in H.
      apply parse_loop_stopped_store in H; [|reflexivity].
      simpl in H. now rewrite H. }
    destruct (names_option (GLib.long_name e) a) eqn:En; [discriminate|].
    destruct ((a =? "--mono-lib")%string || (a =? "--mono-etc")%string)
      eqn:Ebare.
    + (* the bare form of the other option *)
      simpl in H. destruct rest as [|v rest].
      { apply orb_true_iff in Ebare.
        destruct Ebare as [Ea | Ea]; apply String.eqb_eq in Ea; subst a;
          rewrite Hs in H; subst context; cbn in H; discriminate H. }
      apply orb_true_iff in Ebare.
      destruct He as [He | [He | []]]; subst e;
        destruct Ebare as [Ea | Ea]; apply String.eqb_eq in Ea; subst a;
        try (vm_compute in En; discriminate En);
        rewrite Hs in H; subst context; cbn in H;
        (destruct (GLib.parse_arg locale _ v _) as [error|st3] eqn:Earg;
           [discriminate|]);
        apply parse_arg_stored in Earg;
        destruct Earg as (data & _ & Hstore & _);
        cbn in H; apply (IH 1 (GLib.next st3)) in H;
        try exact Hr; cbn in H |- *; rewrite H, Hstore; reflexivity.
    + assert (Hno : ~ supplies (GLib.long_name e) a).
      { intros Hsup. apply names_option_spec in Hsup. congruence. }
      simpl in H.
      destruct a as [|c0 [|c1 arg]];
        try (now apply (IH _ _ _ Hr) in H).
      rewrite Hs in H. rewrite andb_true_r in H.
      destruct (Ascii.eqb c0 "-") eqn:E0;
        [|now apply (IH _ _ _ Hr) in H].
      destruct (Ascii.eqb c1 "-") eqn:E1.
      * rewrite (dashes _ _ _ E0 E1) in Esep, Ebare, Hno.
        destruct arg as [|c2 arg]; [simpl in Esep; discriminate Esep|].
        destruct (GLib.help_enabled context
                  && (String c2 arg =? "help")%string); [discriminate|].
        destruct (GLib.help_enabled context
                  && (String c2 arg =? "help-all")%string); [discriminate|].
        destruct (GLib.parse_long_option locale (GLib.main_entries context)
                    (String c2 arg) rest (GLib.i st) 0 false st)
          as [error | [[taken parsed] st1]] eqn:Epl; [discriminate|].
        destruct parsed; [|discriminate].
        assert (Hderef : deref (GLib.arg_data e) (GLib.store st1)
                         = deref (GLib.arg_data e) (GLib.store st)).
        { eapply parse_long_option_deref; [|exact Epl].
          rewrite Hcontext. intros e' He' Hp.
          now rewrite (entry_variable e e' He He' Hp). }
        apply parse_long_option_taken in Epl;
          [|rewrite Hcontext; now apply option_entries_names].
        subst taken. apply (IH _ _ _ Hr) in H. simpl in H.
        now rewrite H.
      * destruct (GLib.help_enabled context
                  && (Ascii.eqb c1 "?" || Ascii.eqb c1 "h")); discriminate.
Qed.




(** ** The claims *)

(** C1: whenever option parsing succeeds, the run makes exactly five
    [m_load_assembly] calls, for FSharp.Core.dll, FQuake3.Utils.dll,
    Engine.dll, Engine.Renderer.dll and CGame.dll in this order, and all
    five lie between the one [m_domain_new] call and the one
    [m_domain_exec] call. *)
Theorem loads_in_fixed_order (locale : GLib.Locale) (host : string -> string -> string -> MDomain)
    (argv argv' : list string) (g' : Globals) :
  parse_outcome locale argv = GLib.Parsed argv' g' ->
  loads (calls_of (run locale host argv))
    = [ "FSharp.Core.dll"; "FQuake3.Utils.dll"; "Engine.dll";
        "Engine.Renderer.dll"; "CGame.dll" ]
  /\ exists before after domain,
       calls_of (run locale host argv)
         = before
           ++ [ M_domain_new (mono_lib g') (mono_etc g') "Launcher.exe";
                M_load_assembly "FSharp.Core.dll";
                M_load_assembly "FQuake3.Utils.dll";
                M_load_assembly "Engine.dll";
                M_load_assembly "Engine.Renderer.dll";
                M_load_assembly "CGame.dll";
                M_domain_exec domain "Launcher.exe" (argc_of argv') argv' ]
           ++ after
       /\ loads before = [] /\ domain_configs before = []
       /\ loads after = [] /\ execs after = [].
Proof.
  intros H. rewrite (run_parsed locale host _ _ _ H). split; [reflexivity|].
  exists (prologue argv),
    [ M_domain_free (host (mono_lib g') (mono_etc g') "Launcher.exe");
      G_option_context_free 0 ],
    (host (mono_lib g') (mono_etc g') "Launcher.exe").
  repeat split.
Qed.

Lemma loads_in_fixed_order_witness :
  parse_outcome c_locale ["FQuake3.exe"; "+set"; "--mono-etc=etc"]
    = GLib.Parsed ["FQuake3.exe"; "+set"]
        {| mono_lib := "Mono\lib"; mono_etc := "etc" |}
  /\ loads (calls_of (run c_locale host0 ["FQuake3.exe"; "+set"; "--mono-etc=etc"]))
     = [ "FSharp.Core.dll"; "FQuake3.Utils.dll"; "Engine.dll";
         "Engine.Renderer.dll"; "CGame.dll" ].
Proof.
  split; [reflexivity|].
  apply (loads_in_fixed_order c_locale host0 ["FQuake3.exe"; "+set"; "--mono-etc=etc"]
           ["FQuake3.exe"; "+set"]
           {| mono_lib := "Mono\lib"; mono_etc := "etc" |}).
  reflexivity.
Defined.

(** C2, as the code has it: for the arguments
    [--mono-lib Custom\lib --mono-etc Custom\etc foo bar] after any
    program name, the domain is created with
    ("Custom\lib", "Custom\etc", "Launcher.exe"), and [m_domain_exec]
    receives argc 3 and the vector of the program name followed by
    "foo" and "bar": the parser removes the two options and their values
    and keeps argv[0]. *)
Theorem custom_paths_run (locale : GLib.Locale) (host : string -> string -> string -> MDomain)
    (prog : string) :
  domain_configs (calls_of (run locale host (custom_paths prog)))
    = [ ("Custom\lib", "Custom\etc", "Launcher.exe") ]
  /\ execs (calls_of (run locale host (custom_paths prog)))
     = [ (host "Custom\lib" "Custom\etc" "Launcher.exe", "Launcher.exe",
          3%Z, [prog; "foo"; "bar"]) ].
Proof.
  rewrite (run_parsed locale host _ _ _ (custom_paths_parsed locale prog)).
  split; reflexivity.
Qed.

(** C2, as stated, fails: under the program name FQuake3.exe the vector
    handed to [m_domain_exec] has three elements, not the two
    ["foo"; "bar"]. *)
Lemma custom_paths_exec_argv :
  map snd (execs (calls_of (run c_locale host0 (custom_paths "FQuake3.exe"))))
    = [ ["FQuake3.exe"; "foo"; "bar"] ]
  /\ map snd (execs (calls_of (run c_locale host0 (custom_paths "FQuake3.exe"))))
     <> [ ["foo"; "bar"] ].
Proof.
  split; vm_compute; [reflexivity | discriminate].
Qed.

(** C3: the exit status is 0 or 1 and nothing else; it is 1 exactly when
    option parsing fails, and parsing fails only on an unknown option, on
    an option whose value is missing, or on a value the locale cannot
    convert; an unknown option after well-formed arguments does make it
    fail; on failure the run prints one text to standard output,
    "Invalid option: " followed by the parser's message and a line feed;
    when parsing succeeds [main] returns 0. *)
Theorem exit_status_zero_or_one (locale : GLib.Locale)
    (host : string -> string -> string -> MDomain) (argv : list string) :
  (exit_status (run locale host argv) = Some 0%Z
   \/ exit_status (run locale host argv) = Some 1%Z)
  /\ (exit_status (run locale host argv) = Some 1%Z
      <-> exists error, parse_outcome locale argv = GLib.Failed error)
  /\ (forall argv' g', parse_outcome locale argv = GLib.Parsed argv' g' ->
        exists w, run locale host argv = Returned 0%Z w)
  /\ (forall error, parse_outcome locale argv = GLib.Failed error ->
        ((GLib.domain error = GLib.G_OPTION_ERROR
          /\ (GLib.code error = GLib.G_OPTION_ERROR_UNKNOWN_OPTION
              \/ GLib.code error = GLib.G_OPTION_ERROR_BAD_VALUE))
         \/ GLib.domain error = GLib.G_CONVERT_ERROR)
        /\ stdout_of (run locale host argv)
           = [ Text ("Invalid option: " ++ GLib.message error ++ LF) ]
        /\ contains "Invalid option"
             ("Invalid option: " ++ GLib.message error ++ LF))
  /\ (forall prog a before after,
        argv = prog :: before ++ a :: after ->
        well_formed locale before ->
        unrecognized a ->
        exit_status (run locale host argv) = Some 1%Z
        /\ stdout_of (run locale host argv)
           = [ Text ("Invalid option: "
                     ++ GLib.unknown_option_text locale a ++ LF) ]).
Proof.
  assert (Hunknown : forall prog a before after,
            argv = prog :: before ++ a :: after ->
            well_formed locale before ->
            unrecognized a ->
            exit_status (run locale host argv) = Some 1%Z
            /\ stdout_of (run locale host argv)
               = [ Text ("Invalid option: "
                         ++ GLib.unknown_option_text locale a ++ LF) ]).
  { intros prog a before after Hargv Hbefore Ha. subst argv.
    rewrite (run_failed locale host _ _
               (unrecognized_parsed locale prog a before after Hbefore Ha)).
    split; reflexivity. }
  destruct (parse_outcome locale argv) as [argv' g'|error|main_help] eqn:E.
  - rewrite (run_parsed locale host _ _ _ E) in *. simpl in *.
    split; [now left|]. split; [split; [discriminate|]|].
    + intros [error H]. discriminate.
    + split; [intros ? ? _; eexists; reflexivity|].
      split; [discriminate | exact Hunknown].
  - rewrite (run_failed locale host _ _ E) in *. simpl in *.
    split; [now right|]. split; [split; [|reflexivity]|].
    + intros _. now exists error.
    + split; [discriminate|]. split; [|exact Hunknown].
      intros error' H. inversion H; subst error'.
      split; [exact (failed_code locale argv error E)|].
      split; [reflexivity|].
      exists ""%string, (": " ++ GLib.message error ++ LF)%string.
      reflexivity.
  - rewrite (run_help locale host _ _ E) in *. simpl in *.
    split; [now left|]. split; [split; [discriminate|]|].
    + intros [error H]. discriminate.
    + split; [discriminate|]. split; [discriminate | exact Hunknown].
Qed.

(** The unrecognized option of the specification's example. *)
Example bogus_option :
  exit_status (run c_locale host0 ["FQuake3.exe"; "--bogus"]) = Some 1%Z
  /\ stdout_of (run c_locale host0 ["FQuake3.exe"; "--bogus"])
     = [ Text ("Invalid option: Unknown option --bogus" ++ LF) ].
Proof.
  split; vm_compute; reflexivity.
Qed.

(** A bare option at the end of the command line lacks its value. *)
Example missing_value :
  parse_outcome c_locale ["FQuake3.exe"; "--mono-etc"]
  = GLib.Failed {| GLib.domain := GLib.G_OPTION_ERROR;
                   GLib.code := GLib.G_OPTION_ERROR_BAD_VALUE;
                   GLib.message := "Missing argument for --mono-etc" |}.
Proof.
  vm_compute. reflexivity.
Qed.

(** After [--] nothing is an option; the [--] itself is removed unless a
    later argument starts with a dash. *)
Example terminator :
  parse_outcome c_locale ["FQuake3.exe"; "--mono-lib=A"; "--"; "x"]
    = GLib.Parsed ["FQuake3.exe"; "x"]
        {| mono_lib := "A"; mono_etc := "Mono\etc" |}
  /\ parse_outcome c_locale ["FQuake3.exe"; "--"; "--mono-lib=A"]
     = GLib.Parsed ["FQuake3.exe"; "--"; "--mono-lib=A"] initial_globals.
Proof.
  split; vm_compute; reflexivity.
Qed.

(** The help options end the process inside the parser, with status 0. *)
Example help_option :
  run c_locale host0 ["FQuake3.exe"; "--help"]
  = Exited 0%Z
      {| globals := initial_globals; contexts := [launcher_context];
         stdout := [HelpScreen launcher_context true];
         calls := prologue ["FQuake3.exe"; "--help"] |}.
Proof.
  vm_compute. reflexivity.
Qed.

(** C4: when parsing succeeds and no argument names [--mono-lib] or
    [--mono-etc], the domain is created with lib-path "Mono\lib" and
    etc-path "Mono\etc". *)
Theorem default_paths (locale : GLib.Locale) (host : string -> string -> string -> MDomain)
    (argv argv' : list string) (g' : Globals) :
  parse_outcome locale argv = GLib.Parsed argv' g' ->
  Forall (fun a => ~ supplies "mono-lib" a /\ ~ supplies "mono-etc" a)
    (tl argv) ->
  domain_configs (calls_of (run locale host argv))
    = [ ("Mono\lib", "Mono\etc", "Launcher.exe") ].
Proof.
  intros H Hno. rewrite (run_parsed locale host _ _ _ H). simpl.
  destruct (parsed_store _ _ _ _ H) as (final & Hg & Hloop).
  assert (Hlib : mono_lib g' = "Mono\lib").
  { subst g'.
    apply (parse_loop_deref locale addr_mono_lib) in Hloop; [exact Hloop|].
    eapply Forall_impl; [|exact Hno]. simpl.
    intros a [Ha _] e [He | [He | []]] Hp; subst e;
      [exact Ha | discriminate Hp]. }
  assert (Hetc : mono_etc g' = "Mono\etc").
  { subst g'.
    apply (parse_loop_deref locale addr_mono_etc) in Hloop; [exact Hloop|].
    eapply Forall_impl; [|exact Hno]. simpl.
    intros a [_ Ha] e [He | [He | []]] Hp; subst e;
      [discriminate Hp | exact Ha]. }
  now rewrite Hlib, Hetc.
Qed.

Lemma default_paths_witness :
  parse_outcome c_locale ["FQuake3.exe"; "+map"; "q3dm1"]
    = GLib.Parsed ["FQuake3.exe"; "+map"; "q3dm1"] initial_globals
  /\ domain_configs (calls_of (run c_locale host0 ["FQuake3.exe"; "+map"; "q3dm1"]))
     = [ ("Mono\lib", "Mono\etc", "Launcher.exe") ].
Proof.
  split; [vm_compute; reflexivity|].
  apply (default_paths c_locale host0 ["FQuake3.exe"; "+map"; "q3dm1"]
           ["FQuake3.exe"; "+map"; "q3dm1"] initial_globals).
  - vm_compute. reflexivity.
  - simpl. repeat constructor;
      intros [H | [value H]]; simpl in H; discriminate H.
Defined.

(** C5, as the code has it: when parsing succeeds, [--mono-lib=X] is
    read as an option (it stands after complete items, in front of any
    [--] terminator, not as the value of a bare option) and no later
    argument is read as a [--mono-lib] option, the domain is created with
    the lib-path [X] as the locale converts it to UTF-8, which is exactly
    [X] when [X] is ASCII, whatever the other arguments are. *)
Theorem mono_lib_option (locale : GLib.Locale)
    (host : string -> string -> string -> MDomain)
    (prog X : string) (before after argv' : list string) (g' : Globals) :
  parse_outcome locale
    (prog :: before ++ ("--mono-lib=" ++ X)%string :: after)
    = GLib.Parsed argv' g' ->
  option_position 0 before = true ->
  read_later "mono-lib" 0 after = false ->
  exists data,
    GLib.g_locale_to_utf8 locale X = inr data
    /\ domain_configs
         (calls_of
            (run locale host
               (prog :: before ++ ("--mono-lib=" ++ X)%string :: after)))
       = [ (data, mono_etc g', "Launcher.exe") ]
    /\ (ascii_only X = true -> data = X).
Proof.
  intros H Hpos Hafter. rewrite (run_parsed locale host _ _ _ H). simpl.
  destruct (parsed_store _ _ _ _ H) as (final & Hg & Hloop).
  cbn [tl] in Hloop.
  apply parse_loop_before in Hloop; [|exact Hpos|reflexivity].
  destruct Hloop as (st1 & Hs1 & Hloop).
  pose (e := {| GLib.long_name := "mono-lib"; GLib.short_name := None;
                GLib.flags := 0; GLib.arg := GLib.G_OPTION_ARG_STRING;
                GLib.arg_data := addr_mono_lib;
                GLib.description := "Mono lib directory path";
                GLib.arg_description := None |}).
  assert (He : In e option_entries) by (left; reflexivity).
  apply (parse_loop_attached locale e X after st1 final He Hs1) in Hloop.
  destruct Hloop as (data & st2 & Hconv & HX & _ & Hloop).
  apply (parse_loop_unread locale e after He) in Hloop; [|exact Hafter].
  simpl in Hloop, HX. exists data. split; [exact Hconv|]. split.
  - now rewrite Hg, Hloop, HX.
  - intros Hascii.
    rewrite (GLib.ascii_unchanged locale X Hascii) in Hconv.
    now inversion Hconv.
Qed.

Lemma mono_lib_option_witness :
  parse_outcome latin1_locale
    ("FQuake3.exe" :: ["--mono-etc"; "E"; "x"]
       ++ ("--mono-lib=" ++ byte_233)%string
          :: ["--mono-etc"; "--mono-lib=F"; "--"; "--mono-lib=G"])
    = GLib.Parsed ["FQuake3.exe"; "x"; "--"; "--mono-lib=G"]
        {| mono_lib := GLib.latin1_to_utf8 byte_233;
           mono_etc := "--mono-lib=F" |}
  /\ exists data,
       GLib.g_locale_to_utf8 latin1_locale byte_233 = inr data
       /\ domain_configs
            (calls_of
               (run latin1_locale host0
                  ("FQuake3.exe" :: ["--mono-etc"; "E"; "x"]
                     ++ ("--mono-lib=" ++ byte_233)%string
                        :: ["--mono-etc"; "--mono-lib=F"; "--";
                            "--mono-lib=G"])))
          = [ (data, "--mono-lib=F"%string, "Launcher.exe"%string) ]
       /\ (ascii_only byte_233 = true -> data = byte_233).
Proof.
  split; [vm_compute; reflexivity|].
  apply (mono_lib_option latin1_locale host0 "FQuake3.exe" byte_233
           ["--mono-etc"; "E"; "x"]
           ["--mono-etc"; "--mono-lib=F"; "--"; "--mono-lib=G"]
           ["FQuake3.exe"; "x"; "--"; "--mono-lib=G"]
           {| mono_lib := GLib.latin1_to_utf8 byte_233;
              mono_etc := "--mono-lib=F" |}).
  - vm_compute. reflexivity.
  - vm_compute. reflexivity.
  - vm_compute. reflexivity.
Defined.

(** C5, as stated, fails: an invocation that supplies [--mono-lib=A] and
    then [--mono-lib=B] parses, and its domain is created with lib-path
    "B", not "A". *)
Lemma mono_lib_last_wins :
  In ("--mono-lib=" ++ "A")%string
    (tl ["FQuake3.exe"; "--mono-lib=A"; "--mono-lib=B"])
  /\ domain_configs
       (calls_of (run c_locale host0 ["FQuake3.exe"; "--mono-lib=A"; "--mono-lib=B"]))
     = [ ("B", "Mono\etc", "Launcher.exe") ]
  /\ "B" <> "A".
Proof.
  split; [left; reflexivity|]. split; [vm_compute; reflexivity|].
  discriminate.
Qed.

(** C6: a run that reaches [m_domain_exec] calls [m_domain_free] exactly
    once, on the domain that [m_domain_new] returned and that was
    executed; a run whose option parsing fails creates no domain and
    calls [m_domain_free] zero times. *)
Theorem domain_freed_once (locale : GLib.Locale) (host : string -> string -> string -> MDomain)
    (argv : list string) :
  (execs (calls_of (run locale host argv)) <> [] ->
   exists lib etc name,
     domain_configs (calls_of (run locale host argv)) = [ (lib, etc, name) ]
     /\ map (fun e => fst (fst (fst e))) (execs (calls_of (run locale host argv)))
        = [ host lib etc name ]
     /\ domain_frees (calls_of (run locale host argv)) = [ host lib etc name ])
  /\ (forall error, parse_outcome locale argv = GLib.Failed error ->
        domain_configs (calls_of (run locale host argv)) = []
        /\ domain_frees (calls_of (run locale host argv)) = []).
Proof.
  destruct (parse_outcome locale argv) as [argv' g'|error|main_help] eqn:E.
  - rewrite (run_parsed locale host _ _ _ E). simpl. split; [|discriminate].
    intros _. exists (mono_lib g'), (mono_etc g'), "Launcher.exe"%string.
    repeat split.
  - rewrite (run_failed locale host _ _ E). simpl. split.
    + intros H. now elim H.
    + intros _ _. split; reflexivity.
  - rewrite (run_help locale host _ _ E). simpl. split; [|discriminate].
    intros H. now elim H.
Qed.

(** C7: when parsing succeeds, the last two calls of the run are
    [m_domain_free] and then [g_option_context_free], no release comes
    before them, and [main] returns 0 after them. *)
Theorem release_order (locale : GLib.Locale) (host : string -> string -> string -> MDomain)
    (argv argv' : list string) (g' : Globals) :
  parse_outcome locale argv = GLib.Parsed argv' g' ->
  exists w before domain context,
    run locale host argv = Returned 0%Z w
    /\ calls w
       = before ++ [ M_domain_free domain; G_option_context_free context ]
    /\ filter is_release before = [].
Proof.
  intros H. rewrite (run_parsed locale host _ _ _ H).
  eexists.
  exists (prologue argv
          ++ M_domain_new (mono_lib g') (mono_etc g') "Launcher.exe"
             :: map M_load_assembly assemblies
          ++ [ M_domain_exec
                 (host (mono_lib g') (mono_etc g') "Launcher.exe")
                 "Launcher.exe" (argc_of argv') argv' ]),
    (host (mono_lib g') (mono_etc g') "Launcher.exe"), 0.
  repeat split.
Qed.

Lemma release_order_witness :
  parse_outcome c_locale ["FQuake3.exe"; "--mono-lib=lib"]
    = GLib.Parsed ["FQuake3.exe"]
        {| mono_lib := "lib"; mono_etc := "Mono\etc" |}
  /\ exists w before domain context,
       run c_locale host0 ["FQuake3.exe"; "--mono-lib=lib"] = Returned 0%Z w
       /\ calls w
          = before ++ [ M_domain_free domain; G_option_context_free context ]
       /\ filter is_release before = [].
Proof.
  split; [vm_compute; reflexivity|].
  apply (release_order c_locale host0 ["FQuake3.exe"; "--mono-lib=lib"]
           ["FQuake3.exe"] {| mono_lib := "lib"; mono_etc := "Mono\etc" |}).
  vm_compute. reflexivity.
Defined.

(** C8: a run whose option parsing fails never calls
    [g_option_context_free], and its context is still allocated at exit;
    in any run, a call of [g_option_context_free] is the last call and
    comes after the call of [m_domain_exec]. *)
Theorem context_freed_only_after_exec (locale : GLib.Locale)
    (host : string -> string -> string -> MDomain) (argv : list string) :
  (forall error, parse_outcome locale argv = GLib.Failed error ->
     context_frees (calls_of (run locale host argv)) = []
     /\ exists w, final_world (run locale host argv) = Some w
                  /\ map GLib.freed (contexts w) = [false])
  /\ (context_frees (calls_of (run locale host argv)) <> [] ->
      exists before context,
        calls_of (run locale host argv) = before ++ [G_option_context_free context]
        /\ context_frees before = []
        /\ execs before <> []).
Proof.
  destruct (parse_outcome locale argv) as [argv' g'|error|main_help] eqn:E.
  - rewrite (run_parsed locale host _ _ _ E). simpl. split; [discriminate|].
    intros _.
    exists (prologue argv
            ++ hosting (host (mono_lib g') (mono_etc g') "Launcher.exe")
                 g' argv'), 0.
    repeat split. simpl. discriminate.
  - rewrite (run_failed locale host _ _ E). simpl. split.
    + intros _ _. split; [reflexivity|]. eexists. split; reflexivity.
    + intros H. now elim H.
  - rewrite (run_help locale host _ _ E). simpl. split; [discriminate|].
    intros H. now elim H.
Qed.

(** C9: when parsing succeeds, whatever pointer [m_domain_new] returns
    (NULL included), the run goes on with the five loads, executes
    [Launcher.exe] on that pointer, frees that pointer and the context,
    and returns 0: after the parse the sequence of calls is fixed, and the
    host's answer appears in it only as an argument. *)
Theorem hosting_calls_unconditional (locale : GLib.Locale)
    (host : string -> string -> string -> MDomain)
    (argv argv' : list string) (g' : Globals) :
  parse_outcome locale argv = GLib.Parsed argv' g' ->
  exit_status (run locale host argv) = Some 0%Z
  /\ calls_of (run locale host argv)
     = prologue argv
       ++ [ M_domain_new (mono_lib g') (mono_etc g') "Launcher.exe";
            M_load_assembly "FSharp.Core.dll";
            M_load_assembly "FQuake3.Utils.dll";
            M_load_assembly "Engine.dll";
            M_load_assembly "Engine.Renderer.dll";
            M_load_assembly "CGame.dll";
            M_domain_exec (host (mono_lib g') (mono_etc g') "Launcher.exe")
              "Launcher.exe" (argc_of argv') argv';
            M_domain_free (host (mono_lib g') (mono_etc g') "Launcher.exe");
            G_option_context_free 0 ].
Proof.
  intros H. rewrite (run_parsed locale host _ _ _ H). split; reflexivity.
Qed.

Lemma hosting_calls_unconditional_witness :
  parse_outcome c_locale ["FQuake3.exe"; "demo"]
    = GLib.Parsed ["FQuake3.exe"; "demo"] initial_globals
  /\ execs (calls_of (run c_locale (fun _ _ _ => 0%Z) ["FQuake3.exe"; "demo"]))
     = [ (0%Z, "Launcher.exe", 2%Z, ["FQuake3.exe"; "demo"]) ]
  /\ domain_frees (calls_of (run c_locale (fun _ _ _ => 0%Z) ["FQuake3.exe"; "demo"]))
     = [ 0%Z ].
Proof.
  split; [vm_compute; reflexivity|].
  destruct (hosting_calls_unconditional c_locale (fun _ _ _ => 0%Z)
              ["FQuake3.exe"; "demo"] ["FQuake3.exe"; "demo"]
              initial_globals) as [_ Hcalls].
  - vm_compute. reflexivity.
  - rewrite Hcalls. split; reflexivity.
Defined.




(** The locale is another such answer: a value with the byte 233 is
    converted in an ISO 8859-1 locale and rejected in the "C" locale, so
    the same argument vector exits with 0 in the one and with 1 in the
    other. *)
Example same_argv_other_locale :
  exit_status
    (run latin1_locale host0 ["FQuake3.exe"; ("--mono-lib=" ++ byte_233)%string])
    = Some 0%Z
  /\ exit_status
       (run c_locale host0 ["FQuake3.exe"; ("--mono-lib=" ++ byte_233)%string])
     = Some 1%Z
  /\ stdout_of
       (run c_locale host0 ["FQuake3.exe"; ("--mono-lib=" ++ byte_233)%string])
     = [ Text ("Invalid option: Invalid byte sequence in conversion input"
               ++ LF) ].
Proof.
  repeat split; vm_compute; reflexivity.
Qed.

(** ** Further properties of the launcher *)

(** When no argument after argv[0] starts with a dash, the parser leaves
    everything as it is: the run returns 0, the domain is created with the
    default paths, and [m_domain_exec] receives the original argc and
    argv. *)
Theorem plain_arguments_pass_through (locale : GLib.Locale)
    (host : string -> string -> string -> MDomain) (argv : list string) :
  Forall plain (tl argv) ->
  exit_status (run locale host argv) = Some 0%Z
  /\ domain_configs (calls_of (run locale host argv))
     = [ ("Mono\lib", "Mono\etc", "Launcher.exe") ]
  /\ execs (calls_of (run locale host argv))
     = [ (host "Mono\lib" "Mono\etc" "Launcher.exe", "Launcher.exe",
          argc_of argv, argv) ].
Proof.
  intros H. rewrite (run_parsed locale host _ _ _ (plain_parsed locale argv H)).
  repeat split.
Qed.

Lemma plain_arguments_pass_through_witness :
  Forall plain (tl ["FQuake3.exe"; "+set"; "r_mode"; "4"])
  /\ execs (calls_of (run c_locale host0 ["FQuake3.exe"; "+set"; "r_mode"; "4"]))
     = [ (4096%Z, "Launcher.exe", 4%Z,
          ["FQuake3.exe"; "+set"; "r_mode"; "4"]) ].
Proof.
  assert (H : Forall plain (tl ["FQuake3.exe"; "+set"; "r_mode"; "4"]))
    by (repeat constructor).
  split; [exact H|].
  apply (plain_arguments_pass_through c_locale host0
           ["FQuake3.exe"; "+set"; "r_mode"; "4"] H).
Defined.

(** Every run starts with the same three calls, whatever the arguments:
    the context is created with "- options for mono", given
    [option_entries], and the parser is run once on the original argc and
    argv; no such call is made again later. *)
Theorem parser_called_once_first (locale : GLib.Locale)
    (host : string -> string -> string -> MDomain) (argv : list string) :
  exists rest,
    calls_of (run locale host argv)
    = [ G_option_context_new "- options for mono";
        G_option_context_add_main_entries 0 option_entries;
        G_option_context_parse 0 (argc_of argv) argv ] ++ rest
    /\ filter is_parser_call rest = [].
Proof.
  destruct (parse_outcome locale argv) as [argv' g'|error|main_help] eqn:E.
  - rewrite (run_parsed locale host _ _ _ E). eexists. split; reflexivity.
  - rewrite (run_failed locale host _ _ E). eexists. split; reflexivity.
  - rewrite (run_help locale host _ _ E). exists []. split; reflexivity.
Qed.

(** No run works on a context that was released or never allocated: each
    run ends with one context in GLib's heap, released by exactly one
    [g_option_context_free] on the pointer [g_option_context_new] returned
    when parsing succeeded, and still allocated, with no such call,
    otherwise. *)
Theorem context_lifecycle (locale : GLib.Locale)
    (host : string -> string -> string -> MDomain) (argv : list string) :
  exists w,
    final_world (run locale host argv) = Some w
    /\ List.length (contexts w) = 1
    /\ (forall argv' g', parse_outcome locale argv = GLib.Parsed argv' g' ->
          context_frees (calls w) = [0]
          /\ map GLib.freed (contexts w) = [true])
    /\ ((forall argv' g', parse_outcome locale argv <> GLib.Parsed argv' g') ->
          context_frees (calls w) = []
          /\ map GLib.freed (contexts w) = [false]).
Proof.
  destruct (parse_outcome locale argv) as [argv' g'|error|main_help] eqn:E.
  - rewrite (run_parsed locale host _ _ _ E). eexists.
    split; [reflexivity|]. split; [reflexivity|]. split.
    + intros _ _ _. split; reflexivity.
    + intros H. now elim (H argv' g').
  - rewrite (run_failed locale host _ _ E). eexists.
    split; [reflexivity|]. split; [reflexivity|]. split.
    + discriminate.
    + intros _. split; reflexivity.
  - rewrite (run_help locale host _ _ E). eexists.
    split; [reflexivity|]. split; [reflexivity|]. split.
    + discriminate.
    + intros _. split; reflexivity.
Qed.

(** The launcher itself prints only when parsing fails: [g_print] is
    called once then and never otherwise, and a run whose parsing
    succeeds leaves standard output empty. *)
Theorem prints_only_on_failure (locale : GLib.Locale)
    (host : string -> string -> string -> MDomain) (argv : list string) :
  (List.length (prints (calls_of (run locale host argv))) = 1
   <-> exists error, parse_outcome locale argv = GLib.Failed error)
  /\ (prints (calls_of (run locale host argv)) = []
      <-> forall error, parse_outcome locale argv <> GLib.Failed error)
  /\ (forall argv' g', parse_outcome locale argv = GLib.Parsed argv' g' ->
        stdout_of (run locale host argv) = []).
Proof.
  destruct (parse_outcome locale argv) as [argv' g'|error|main_help] eqn:E.
  - rewrite (run_parsed locale host _ _ _ E). simpl.
    split; [split; [discriminate | intros [e H]; discriminate]|].
    split; [split; [discriminate | reflexivity]|]. reflexivity.
  - rewrite (run_failed locale host _ _ E). simpl.
    split; [split; [intros _; now exists error | reflexivity]|].
    split; [split; [discriminate | intros H; now elim (H error)]|].
    discriminate.
  - rewrite (run_help locale host _ _ E). simpl.
    split; [split; [discriminate | intros [e H]; discriminate]|].
    split; [split; [discriminate | reflexivity]|]. discriminate.
Qed.

(** Either option, in either form ([--name=X], or [--name] followed by
    [X], whatever [X] looks like), sets its path to [X] as the locale
    converts it to UTF-8, which is [X] itself when [X] is ASCII, when
    parsing succeeds, the option is read as an option and no later
    argument is read as the same option; the domain is created with the
    paths the statics then hold. *)
Theorem option_sets_path (locale : GLib.Locale)
    (host : string -> string -> string -> MDomain)
    (prog X : string) (e : GLib.GOptionEntry)
    (before item after argv' : list string) (g' : Globals) :
  In e option_entries ->
  item = [ ("--" ++ GLib.long_name e ++ "=" ++ X)%string ]
  \/ item = [ ("--" ++ GLib.long_name e)%string; X ] ->
  parse_outcome locale (prog :: before ++ item ++ after)
    = GLib.Parsed argv' g' ->
  option_position 0 before = true ->
  read_later (GLib.long_name e) 0 after = false ->
  GLib.g_locale_to_utf8 locale X = inr (deref (GLib.arg_data e) g')
  /\ (ascii_only X = true -> deref (GLib.arg_data e) g' = X)
  /\ domain_configs
       (calls_of (run locale host (prog :: before ++ item ++ after)))
     = [ (mono_lib g', mono_etc g', "Launcher.exe") ].
Proof.
  intros He Hitem H Hpos Hafter. rewrite (run_parsed locale host _ _ _ H).
  destruct (parsed_store _ _ _ _ H) as (final & Hg & Hloop).
  cbn [tl] in Hloop.
  apply parse_loop_before in Hloop; [|exact Hpos|reflexivity].
  destruct Hloop as (st1 & Hs1 & Hloop).
  assert (Hst : exists data st2,
            GLib.g_locale_to_utf8 locale X = inr data
            /\ deref (GLib.arg_data e) (GLib.store st2) = data
            /\ GLib.parse_loop locale launcher_context after 0 st2
               = GLib.Finished final).
  { destruct Hitem as [Hitem | Hitem]; subst item.
    - apply (parse_loop_attached locale e X after st1 final He Hs1)
        in Hloop.
      destruct Hloop as (data & st2 & Hconv & HX & _ & Hloop).
      now exists data, st2.
    - apply (parse_loop_bare locale e X after st1 final He Hs1) in Hloop.
      destruct Hloop as (data & st2 & Hconv & HX & _ & Hloop).
      now exists data, st2. }
  destruct Hst as (data & st2 & Hconv & HX & Hrest).
  apply (parse_loop_unread locale e after He) in Hrest; [|exact Hafter].
  assert (Hdata : deref (GLib.arg_data e) g' = data)
    by now rewrite Hg, Hrest.
  rewrite Hdata. split; [exact Hconv|]. split; [|reflexivity].
  intros Hascii. rewrite (GLib.ascii_unchanged locale X Hascii) in Hconv.
  now inversion Hconv.
Qed.

Lemma option_sets_path_witness :
  parse_outcome latin1_locale
    ("FQuake3.exe" :: ["+map"; "--mono-lib=L"]
       ++ ["--mono-etc"; ("--mono-lib=" ++ byte_233)%string]
       ++ ["q3dm1"; "--"; "--mono-etc=Z"])
    = GLib.Parsed ["FQuake3.exe"; "+map"; "q3dm1"; "--"; "--mono-etc=Z"]
        {| mono_lib := "L";
           mono_etc := GLib.latin1_to_utf8 ("--mono-lib=" ++ byte_233) |}
  /\ domain_configs
       (calls_of
          (run latin1_locale host0
             ("FQuake3.exe" :: ["+map"; "--mono-lib=L"]
                ++ ["--mono-etc"; ("--mono-lib=" ++ byte_233)%string]
                ++ ["q3dm1"; "--"; "--mono-etc=Z"])))
     = [ ("L"%string, GLib.latin1_to_utf8 ("--mono-lib=" ++ byte_233),
          "Launcher.exe"%string) ].
Proof.
  split; [vm_compute; reflexivity|].
  apply (option_sets_path latin1_locale host0 "FQuake3.exe"
           ("--mono-lib=" ++ byte_233)%string
           {| GLib.long_name := "mono-etc"; GLib.short_name := None;
              GLib.flags := 0; GLib.arg := GLib.G_OPTION_ARG_STRING;
              GLib.arg_data := addr_mono_etc;
              GLib.description := "Mono etc directory path";
              GLib.arg_description := None |}
           ["+map"; "--mono-lib=L"]
           ["--mono-etc"; ("--mono-lib=" ++ byte_233)%string]
           ["q3dm1"; "--"; "--mono-etc=Z"]
           ["FQuake3.exe"; "+map"; "q3dm1"; "--"; "--mono-etc=Z"]
           {| mono_lib := "L";
              mono_etc := GLib.latin1_to_utf8 ("--mono-lib=" ++ byte_233) |}).
  - right. left. reflexivity.
  - right. reflexivity.
  - vm_compute. reflexivity.
  - vm_compute. reflexivity.
  - vm_compute. reflexivity.
Defined.

(** The two paths are independent: when parsing succeeds and no argument
    names [--mono-lib], the lib-path is "Mono\lib" whatever is done to
    the etc-path, and the other way round. *)
Theorem untouched_path_keeps_default (locale : GLib.Locale)
    (host : string -> string -> string -> MDomain)
    (argv argv' : list string) (g' : Globals) :
  parse_outcome locale argv = GLib.Parsed argv' g' ->
  (Forall (fun a => ~ supplies "mono-lib" a) (tl argv) ->
   map (fun c => fst (fst c)) (domain_configs (calls_of (run locale host argv)))
   = [ "Mono\lib"%string ])
  /\ (Forall (fun a => ~ supplies "mono-etc" a) (tl argv) ->
      map (fun c => snd (fst c)) (domain_configs (calls_of (run locale host argv)))
      = [ "Mono\etc"%string ]).
Proof.
  intros H. rewrite (run_parsed locale host _ _ _ H). simpl.
  destruct (parsed_store _ _ _ _ H) as (final & Hg & Hloop). subst g'.
  split; intros Hno.
  - apply (parse_loop_deref locale addr_mono_lib) in Hloop.
    + simpl in Hloop. now rewrite Hloop.
    + eapply Forall_impl; [|exact Hno]. simpl.
      intros a Ha e [He | [He | []]] Hp; subst e;
        [exact Ha | discriminate Hp].
  - apply (parse_loop_deref locale addr_mono_etc) in Hloop.
    + simpl in Hloop. now rewrite Hloop.
    + eapply Forall_impl; [|exact Hno]. simpl.
      intros a Ha e [He | [He | []]] Hp; subst e;
        [discriminate Hp | exact Ha].
Qed.

Lemma untouched_path_keeps_default_witness :
  parse_outcome c_locale ["FQuake3.exe"; "--mono-etc=E"; "demo"]
    = GLib.Parsed ["FQuake3.exe"; "demo"]
        {| mono_lib := "Mono\lib"; mono_etc := "E" |}
  /\ map (fun c => fst (fst c))
       (domain_configs
          (calls_of (run c_locale host0 ["FQuake3.exe"; "--mono-etc=E"; "demo"])))
     = [ "Mono\lib"%string ].
Proof.
  split; [vm_compute; reflexivity|].
  apply (untouched_path_keeps_default c_locale host0
           ["FQuake3.exe"; "--mono-etc=E"; "demo"] ["FQuake3.exe"; "demo"]
           {| mono_lib := "Mono\lib"; mono_etc := "E" |}).
  - vm_compute. reflexivity.
  - simpl. repeat constructor;
      intros [H | [value H]]; simpl in H; discriminate H.
Defined.

(** An argument that has the form of an option and is not one the
    parser knows, met after well-formed arguments (valid options with
    values the locale converts included), ends the run, whatever follows
    it: exit status 1, the one line "Invalid option: " with the
    catalogue's unknown-option message for the argument as it was typed,
    and not a single call into the hosting library. *)
Theorem unrecognized_option_rejected (locale : GLib.Locale)
    (host : string -> string -> string -> MDomain)
    (prog a : string) (before after : list string) :
  well_formed locale before ->
  unrecognized a ->
  exit_status (run locale host (prog :: before ++ a :: after)) = Some 1%Z
  /\ stdout_of (run locale host (prog :: before ++ a :: after))
     = [ Text ("Invalid option: "
               ++ GLib.unknown_option_text locale a ++ LF) ]
  /\ filter is_hosting_call
       (calls_of (run locale host (prog :: before ++ a :: after))) = [].
Proof.
  intros Hbefore Ha.
  rewrite (run_failed locale host _ _
             (unrecognized_parsed locale prog a before after Hbefore Ha)).
  repeat split.
Qed.

Lemma unrecognized_option_rejected_witness :
  well_formed c_locale ["+map"; "--mono-lib=L"]
  /\ unrecognized "--mono-libs=X"
  /\ stdout_of
       (run c_locale host0
          ("FQuake3.exe" :: ["+map"; "--mono-lib=L"]
             ++ "--mono-libs=X" :: ["--help"]))
     = [ Text ("Invalid option: "
               ++ GLib.unknown_option_text c_locale "--mono-libs=X" ++ LF) ].
Proof.
  assert (Hbefore : well_formed c_locale ["+map"; "--mono-lib=L"]).
  { apply well_formed_plain; [reflexivity|].
    apply (well_formed_attached c_locale
             {| GLib.long_name := "mono-lib"; GLib.short_name := None;
                GLib.flags := 0; GLib.arg := GLib.G_OPTION_ARG_STRING;
                GLib.arg_data := addr_mono_lib;
                GLib.description := "Mono lib directory path";
                GLib.arg_description := None |} "L" "L" []);
      [left; reflexivity | reflexivity | constructor]. }
  assert (Hun : unrecognized "--mono-libs=X").
  { left. exists "mono-libs=X"%string.
    repeat split; try discriminate;
      intros [H | [value H]]; simpl in H; discriminate H. }
  split; [exact Hbefore|]. split; [exact Hun|].
  apply (unrecognized_option_rejected c_locale host0 "FQuake3.exe"
           "--mono-libs=X" ["+map"; "--mono-lib=L"] ["--help"] Hbefore Hun).
Defined.

(** A bare [--mono-lib] or [--mono-etc] as the last argument, after
    well-formed arguments, has no value to take: the run exits with
    status 1, prints "Invalid option: " with the catalogue's
    missing-argument message for the option's name, and calls nothing in
    the hosting library. *)
Theorem missing_value_rejected (locale : GLib.Locale)
    (host : string -> string -> string -> MDomain)
    (prog : string) (e : GLib.GOptionEntry) (before : list string) :
  In e option_entries ->
  well_formed locale before ->
  exit_status
    (run locale host (prog :: before ++ [("--" ++ GLib.long_name e)%string]))
  = Some 1%Z
  /\ stdout_of
       (run locale host
          (prog :: before ++ [("--" ++ GLib.long_name e)%string]))
     = [ Text ("Invalid option: "
               ++ GLib.missing_argument_text locale
                    ("--" ++ GLib.long_name e) ++ LF) ]
  /\ filter is_hosting_call
       (calls_of
          (run locale host
             (prog :: before ++ [("--" ++ GLib.long_name e)%string])))
     = [].
Proof.
  intros He Hbefore.
  assert (E : parse_outcome locale
                (prog :: before ++ [("--" ++ GLib.long_name e)%string])
              = GLib.Failed
                  {| GLib.domain := GLib.G_OPTION_ERROR;
                     GLib.code := GLib.G_OPTION_ERROR_BAD_VALUE;
                     GLib.message :=
                       GLib.missing_argument_text locale
                         ("--" ++ GLib.long_name e) |}).
  { destruct (parse_loop_well_formed locale before Hbefore loop_start
                eq_refl) as (st' & Hs' & Hrest).
    rewrite parse_outcome_loop. cbn [tl]. rewrite Hrest.
    now rewrite parse_loop_missing. }
  rewrite (run_failed locale host _ _ E). repeat split.
Qed.

Lemma missing_value_rejected_witness :
  well_formed c_locale ["demo"]
  /\ stdout_of
       (run c_locale host0 ("FQuake3.exe" :: ["demo"] ++ ["--mono-lib"]))
     = [ Text ("Invalid option: Missing argument for --mono-lib" ++ LF) ].
Proof.
  assert (Hplain : well_formed c_locale ["demo"])
    by (apply plain_well_formed; repeat constructor).
  split; [exact Hplain|].
  apply (missing_value_rejected c_locale host0 "FQuake3.exe"
           {| GLib.long_name := "mono-lib"; GLib.short_name := None;
              GLib.flags := 0; GLib.arg := GLib.G_OPTION_ARG_STRING;
              GLib.arg_data := addr_mono_lib;
              GLib.description := "Mono lib directory path";
              GLib.arg_description := None |}
           ["demo"]); [left; reflexivity | exact Hplain].
Defined.

(** A help option met after well-formed arguments (valid options with
    values the locale converts included) ends the process inside the parser with status 0, whatever
    follows it: the help screen is the
    only output and the call of the parser is the last call, so [main]
    creates no domain, calls nothing in the hosting library, prints
    nothing itself and does not release the context. *)
Theorem help_option_exits_zero (locale : GLib.Locale)
    (host : string -> string -> string -> MDomain)
    (prog a : string) (before after : list string) :
  well_formed locale before ->
  asks_help a ->
  exit_status (run locale host (prog :: before ++ a :: after)) = Some 0%Z
  /\ (exists main_help,
        stdout_of (run locale host (prog :: before ++ a :: after))
        = [ HelpScreen launcher_context main_help ])
  /\ calls_of (run locale host (prog :: before ++ a :: after))
     = [ G_option_context_new "- options for mono";
         G_option_context_add_main_entries 0 option_entries;
         G_option_context_parse 0
           (argc_of (prog :: before ++ a :: after))
           (prog :: before ++ a :: after) ].
Proof.
  intros Hbefore Ha.
  destruct (parse_loop_well_formed locale before Hbefore loop_start eq_refl)
    as (st' & Hs' & Hrest).
  destruct (asks_help_exits locale a after st' Hs' Ha) as (main_help & Hloop).
  assert (E : parse_outcome locale (prog :: before ++ a :: after)
              = GLib.HelpExit main_help).
  { rewrite parse_outcome_loop. cbn [tl]. rewrite Hrest.
    now rewrite Hloop. }
  rewrite (run_help locale host _ _ E).
  split; [reflexivity|]. split; [now exists main_help | reflexivity].
Qed.

Lemma help_option_exits_zero_witness :
  well_formed c_locale ["demo"]
  /\ asks_help "-h"
  /\ exit_status
       (run c_locale host0 ("FQuake3.exe" :: ["demo"] ++ "-h" :: ["--bogus"]))
     = Some 0%Z.
Proof.
  assert (Hplain : well_formed c_locale ["demo"])
    by (apply plain_well_formed; repeat constructor).
  assert (Hhelp : asks_help "-h")
    by (right; right; exists ""%string; right; reflexivity).
  split; [exact Hplain|]. split; [exact Hhelp|].
  apply (help_option_exits_zero c_locale host0 "FQuake3.exe" "-h" ["demo"]
           ["--bogus"] Hplain Hhelp).
Defined.

(** Everything after a [--] reaches [m_domain_exec] as it was typed and
    changes no path, even if it looks like an option; the [--] itself is
    dropped from argv unless one of the arguments after it starts with a
    dash. *)
Theorem terminator_passes_rest (locale : GLib.Locale)
    (host : string -> string -> string -> MDomain)
    (prog : string) (before after : list string) :
  Forall plain before ->
  exit_status (run locale host (prog :: before ++ "--"%string :: after))
  = Some 0%Z
  /\ domain_configs
       (calls_of (run locale host (prog :: before ++ "--"%string :: after)))
     = [ ("Mono\lib", "Mono\etc", "Launcher.exe") ]
  /\ map snd
       (execs (calls_of (run locale host (prog :: before ++ "--"%string :: after))))
     = [ prog :: before
         ++ (if existsb GLib.starts_with_dash after
             then ["--"%string] else [])
         ++ after ].
Proof.
  intros Hplain.
  rewrite (run_parsed locale host _ _ _ (separator_parsed locale prog before after Hplain)).
  repeat split.
Qed.

Lemma terminator_passes_rest_witness :
  Forall plain ["demo"]
  /\ map snd
       (execs
          (calls_of
             (run c_locale host0
                ("FQuake3.exe" :: ["demo"]
                   ++ "--"%string :: ["--mono-lib=X"; "--bogus"]))))
     = [ ["FQuake3.exe"; "demo"; "--"; "--mono-lib=X"; "--bogus"] ].
Proof.
  assert (Hplain : Forall plain ["demo"]) by (repeat constructor).
  split; [exact Hplain|].
  apply (terminator_passes_rest c_locale host0 "FQuake3.exe" ["demo"]
           ["--mono-lib=X"; "--bogus"] Hplain).
Defined.

(** The vector a run hands to [m_domain_exec] is the original argv with
    some arguments left out: nothing is added, changed or reordered,
    argv[0] is always kept, argc is the length of the vector and never
    exceeds the original argc. *)
Theorem exec_argv_subsequence (locale : GLib.Locale)
    (host : string -> string -> string -> MDomain) (argv args : list string)
    (domain : MDomain) (name : string) (argc : Z) :
  In (domain, name, argc, args) (execs (calls_of (run locale host argv))) ->
  subsequence args argv
  /\ hd_error args = hd_error argv
  /\ argc = argc_of args
  /\ (argc <= argc_of argv)%Z.
Proof.
  destruct (parse_outcome locale argv) as [argv' g'|error|main_help] eqn:E.
  - rewrite (run_parsed locale host _ _ _ E). simpl.
    intros [H | []]. inversion H; subst.
    destruct (parsed_argv _ _ _ _ E) as [Hsub Hhd].
    repeat split; [exact Hsub | exact Hhd |].
    unfold argc_of. apply subsequence_length in Hsub. lia.
  - rewrite (run_failed locale host _ _ E). simpl. intros [].
  - rewrite (run_help locale host _ _ E). simpl. intros [].
Qed.

Lemma exec_argv_subsequence_witness :
  In (4096%Z, "Launcher.exe"%string, 2%Z, ["FQuake3.exe"; "demo"])
    (execs (calls_of (run c_locale host0 ["FQuake3.exe"; "--mono-etc"; "E"; "demo"])))
  /\ subsequence ["FQuake3.exe"; "demo"]
       ["FQuake3.exe"; "--mono-etc"; "E"; "demo"].
Proof.
  assert (H : In (4096%Z, "Launcher.exe"%string, 2%Z,
                  ["FQuake3.exe"; "demo"])
                (execs (calls_of
                   (run c_locale host0 ["FQuake3.exe"; "--mono-etc"; "E"; "demo"]))))
    by (vm_compute; left; reflexivity).
  split; [exact H|].
  apply (exec_argv_subsequence c_locale host0
           ["FQuake3.exe"; "--mono-etc"; "E"; "demo"]
           ["FQuake3.exe"; "demo"] 4096%Z "Launcher.exe" 2%Z H).
Defined.
